(** * Rate limiter and token service of the portfolio backend

    A shallow embedding of [src/lib/rateLimit.ts] and of the token helpers
    of [lib/auth] ([generateToken], [verifyToken], [getTokenFromRequest],
    [requireAuth]), with the properties the specification states about them;
    then of [sanitizeHtml] and [validate] of [lib/validation], of the client
    helpers of [src/lib/authClient.ts], and of the login and the education
    [DELETE] handlers, with properties read off the code.

    Conventions of the embedding.
    - JavaScript numbers that the code uses as counters and millisecond
      timestamps are integers; they are modelled as [Z].
    - Header values are byte strings; they are modelled as [string].
    - The module-level object [rateLimitStore] is a plain object: a finite
      map from own property names to entries, threaded through every call,
      together with the properties every plain object inherits from
      [Object.prototype], which a lookup finds when there is no own entry.
    - [Date.now()] is an explicit argument [now].
    - An operation that raises in JavaScript (reading a property of
      [undefined]) is modelled in the exception monad [Js]. *)

From Stdlib Require Import ZArith Ascii String List.
From Stdlib Require Import DecimalString DecimalPos.
From stdpp Require Import base option gmap strings list fin_maps countable.

Local Open Scope string_scope.
Local Open Scope Z_scope.

(** ** JavaScript prelude *)

Module JS.

(** The error codes of the [jose] package. *)
Inductive JOSECode : Type :=
| ERR_JWS_INVALID
| ERR_JWT_INVALID
| ERR_JWS_SIGNATURE_VERIFICATION_FAILED
| ERR_JWT_CLAIM_VALIDATION_FAILED
| ERR_JWT_EXPIRED
| ERR_JOSE_ALG_NOT_ALLOWED
| ERR_JOSE_NOT_SUPPORTED.

Inductive JsError : Type :=
| TypeError (what : string)
| JOSEError (code : JOSECode).

(** A computation that either returns or throws. *)
Inductive Js (A : Type) : Type :=
| Return (a : A)
| Throw (e : JsError).
Arguments Return {A} a.
Arguments Throw {A} e.

#[global] Instance js_ret : MRet Js := @Return.
#[global] Instance js_bind : MBind Js := λ A B f m,
  match m with
  | Return a => f a
  | Throw e => Throw e
  end.

(** [xs[i]] followed by a property read or method call: [undefined.p]
    raises a TypeError. *)
Definition index {A} (xs : list A) (i : nat) : Js A :=
  match xs !! i with
  | Some x => Return x
  | None => Throw (TypeError "Cannot read properties of undefined")
  end.

(** [obj[key].p] on an object used as a dictionary. *)
Definition member {A} (obj : gmap string A) (key : string) : Js A :=
  match obj !! key with
  | Some x => Return x
  | None => Throw (TypeError "Cannot read properties of undefined")
  end.

(** Truthiness of a [string | null]: [null] and the empty string are
    falsy. *)
Definition truthy (v : option string) : bool :=
  match v with
  | None => false
  | Some "" => false
  | Some _ => true
  end.

(** [a || b] on strings. *)
Definition or_else (v : option string) (d : string) : string :=
  match v with
  | Some s => if truthy v then s else d
  | None => d
  end.

(** White space removed by [String.prototype.trim], restricted to the
    code units a byte string can hold: TAB, LF, VT, FF, CR, SP, NBSP. *)
Definition isWhiteSpace (c : ascii) : bool :=
  let n := nat_of_ascii c in
  ((9 <=? n)%nat && (n <=? 13)%nat) || (n =? 32)%nat || (n =? 160)%nat.

Fixpoint trimStart (s : string) : string :=
  match s with
  | EmptyString => EmptyString
  | String c r => if isWhiteSpace c then trimStart r else s
  end.

Fixpoint trimEnd (s : string) : string :=
  match s with
  | EmptyString => EmptyString
  | String c r =>
      match trimEnd r with
      | EmptyString => if isWhiteSpace c then EmptyString else String c EmptyString
      | r' => String c r'
      end
  end.

Definition trim (s : string) : string := trimEnd (trimStart s).

(** [s.split(sep)] for a one-character separator. *)
Fixpoint split (sep : ascii) (s : string) : list string :=
  match s with
  | EmptyString => [EmptyString]
  | String c r =>
      if Ascii.eqb c sep then EmptyString :: split sep r
      else match split sep r with
           | h :: t => String c h :: t
           | [] => [String c EmptyString]
           end
  end.

(** [s.startsWith(p)] *)
Definition startsWith (p s : string) : bool := String.prefix p s.

(** [s.substring(n)] *)
Definition substring (n : nat) (s : string) : string :=
  String.substring n (String.length s - n) s.

(** A request as the code reads it: its headers, looked up by lower-case
    name; [get] returns [null] for an absent header. *)
Record NextRequest : Type := { headers : gmap string string }.

Definition get (request : NextRequest) (name : string) : option string :=
  headers request !! name.

Definition request_of (hs : list (string * string)) : NextRequest :=
  {| headers := list_to_map hs |}.

End JS.

Import JS.

(** ** [src/lib/rateLimit.ts] *)

Module RateLimit.

Record RateLimitEntry : Type := { count : Z; resetAt : Z }.

Record RateLimitConfig : Type := {
  maxRequests : Z;
  windowSeconds : Z;
  message : option string
}.

(** [resetAt] of a result is [undefined], here [None], when it is read
    from an object that has no such property. *)
Record RateLimitResult : Type := {
  allowed : bool;
  remaining : Z;
  result_resetAt : option Z;
  error : option string
}.

(** The properties a plain object inherits from [Object.prototype]: for
    these names [rateLimitStore[name]] is a function, or the prototype
    itself, when the store has no own entry of that name. Each of them is
    truthy and has no [resetAt] and no numeric [count]. *)
Definition objectPrototypeKeys : list string :=
  ["constructor"; "__proto__"; "hasOwnProperty"; "isPrototypeOf";
   "propertyIsEnumerable"; "toLocaleString"; "toString"; "valueOf";
   "__defineGetter__"; "__defineSetter__"; "__lookupGetter__";
   "__lookupSetter__"].

Definition inherited (key : string) : bool :=
  bool_decide (key ∈ objectPrototypeKeys).

(** The default of the [config] parameter. *)
Definition defaultConfig : RateLimitConfig :=
  {| maxRequests := 10; windowSeconds := 60; message := None |}.

Definition defaultMessage : string :=
  "Too many requests. Please try again later.".

(** Inside a branch guarded by [truthy v] the value is a string,
    [default "" v]. *)
Definition getClientIdentifier (request : NextRequest) : Js string :=
  let forwardedFor := get request "x-forwarded-for" in
  let realIp := get request "x-real-ip" in
  if truthy forwardedFor then
    first ← index (split "," (default "" forwardedFor)) 0;
    mret (trim first)
  else if truthy realIp then
    mret (default "" realIp)
  else
    mret (or_else (get request "user-agent") "unknown").

(** Without an own entry the lookup [rateLimitStore[identifier]] gives
    [undefined], or for an inherited name a truthy object whose [resetAt]
    is [undefined]: then [undefined < now] is false, [count++] leaves NaN
    on that object and not in the store, and [NaN <= maxRequests] is
    false. *)
Definition checkRateLimit (rateLimitStore : gmap string RateLimitEntry)
    (request : NextRequest) (config : RateLimitConfig) (now : Z)
  : Js (RateLimitResult * gmap string RateLimitEntry) :=
  identifier ← getClientIdentifier request;
  let windowMs := windowSeconds config * 1000 in
  expired ← match rateLimitStore !! identifier with
            | None => mret (negb (inherited identifier))
            | Some _ =>
                e ← member rateLimitStore identifier;
                mret (resetAt e <? now)
            end;
  if (expired : bool) then
    let store1 :=
      <[identifier := {| count := 1; resetAt := now + windowMs |}]> rateLimitStore in
    e ← member store1 identifier;
    mret ({| allowed := true;
             remaining := maxRequests config - 1;
             result_resetAt := Some (resetAt e);
             error := None |}, store1)
  else
    match rateLimitStore !! identifier with
    | None =>
        if inherited identifier then
          mret ({| allowed := false;
                   remaining := 0;
                   result_resetAt := None;
                   error := Some (or_else (message config) defaultMessage) |},
                rateLimitStore)
        else Throw (TypeError "Cannot read properties of undefined")
    | Some _ =>
        e ← member rateLimitStore identifier;
        let store2 :=
          <[identifier := {| count := count e + 1; resetAt := resetAt e |}]> rateLimitStore in
        e2 ← member store2 identifier;
        let remaining := Z.max 0 (maxRequests config - count e2) in
        let allowed := count e2 <=? maxRequests config in
        if negb allowed then
          mret ({| allowed := false;
                   remaining := 0;
                   result_resetAt := Some (resetAt e2);
                   error := Some (or_else (message config) defaultMessage) |}, store2)
        else
          mret ({| allowed := true;
                   remaining := remaining;
                   result_resetAt := Some (resetAt e2);
                   error := None |}, store2)
    end.

(** The body of the [setInterval] callback. *)
Definition sweep (rateLimitStore : gmap string RateLimitEntry) (now : Z)
  : gmap string RateLimitEntry :=
  filter (λ kv, ¬ (resetAt kv.2 < now)) rateLimitStore.

Module RATE_LIMITS.
Definition login : RateLimitConfig :=
  {| maxRequests := 5; windowSeconds := 300;
     message := Some "Too many login attempts. Please try again in 5 minutes." |}.
Definition contact : RateLimitConfig :=
  {| maxRequests := 3; windowSeconds := 3600;
     message := Some "Too many contact form submissions. Please try again later." |}.
Definition upload : RateLimitConfig :=
  {| maxRequests := 10; windowSeconds := 3600;
     message := Some "Too many upload requests. Please try again later." |}.
Definition api : RateLimitConfig :=
  {| maxRequests := 100; windowSeconds := 60;
     message := Some "Too many requests. Please slow down." |}.
Definition publicRead : RateLimitConfig :=
  {| maxRequests := 200; windowSeconds := 60;
     message := Some "Too many requests. Please slow down." |}.
End RATE_LIMITS.

(** A client sending one request per clock reading in [times], each
    through [checkRateLimit] with the same configuration. *)
Fixpoint serve (rateLimitStore : gmap string RateLimitEntry)
    (request : NextRequest) (config : RateLimitConfig) (times : list Z)
  : Js (list RateLimitResult * gmap string RateLimitEntry) :=
  match times with
  | [] => mret ([], rateLimitStore)
  | now :: rest =>
      '(r, store1) ← checkRateLimit rateLimitStore request config now;
      '(rs, store2) ← serve store1 request config rest;
      mret (r :: rs, store2)
  end.

(** No entry of [key], or one whose window is over at [now]: the first
    branch of [checkRateLimit]. *)
Definition noLiveEntry (rateLimitStore : gmap string RateLimitEntry)
    (key : string) (now : Z) : Prop :=
  match rateLimitStore !! key with
  | None => True
  | Some e => resetAt e < now
  end.

(** The header value up to its first comma, as the specification words
    the first segment; compared with [split] below. *)
Fixpoint firstSegment (s : string) : string :=
  match s with
  | EmptyString => EmptyString
  | String c r => if Ascii.eqb c "," then EmptyString else String c (firstSegment r)
  end.

(** A header that is absent, or present with an empty value. *)
Definition blank (v : option string) : Prop := v = None ∨ v = Some "".

End RateLimit.

(** ** The token helpers of [lib/auth] *)

Module Auth.

Inductive Alg : Type := HS256.

(** [Omit<TokenPayload, keyof JWTPayload>]: the body handed to
    [generateToken]. *)
Record Claims : Type := {
  userId : string;
  username : string;
  email : string
}.

(** [TokenPayload extends JWTPayload]: the body together with the
    registered claims the code sets; both are NumericDate values, in
    seconds. *)
Record TokenPayload : Type := {
  claims : Claims;
  iat : option Z;
  exp : option Z
}.

(** The time spans [setExpirationTime] is given as a string. *)
Inductive TimeSpan : Type :=
| Seconds (n : Z)
| Minutes (n : Z)
| Hours (n : Z)
| Days (n : Z)
| Weeks (n : Z).

Definition secs (span : TimeSpan) : Z :=
  match span with
  | Seconds n => n
  | Minutes n => n * 60
  | Hours n => n * 3600
  | Days n => n * 86400
  | Weeks n => n * 604800
  end.

(** The [SignJWT] builder. *)
Record SignJWT : Type := {
  payload : TokenPayload;
  protectedHeader : option Alg
}.

Definition newSignJWT (body : Claims) : SignJWT :=
  {| payload := {| claims := body; iat := None; exp := None |};
     protectedHeader := None |}.

Definition setProtectedHeader (alg : Alg) (b : SignJWT) : SignJWT :=
  {| payload := payload b; protectedHeader := Some alg |}.

Definition setIssuedAt (now : Z) (b : SignJWT) : SignJWT :=
  {| payload := {| claims := claims (payload b);
                   iat := Some now;
                   exp := exp (payload b) |};
     protectedHeader := protectedHeader b |}.

Definition setExpirationTime (span : TimeSpan) (now : Z) (b : SignJWT) : SignJWT :=
  {| payload := {| claims := claims (payload b);
                   iat := iat (payload b);
                   exp := Some (now + secs span) |};
     protectedHeader := protectedHeader b |}.

(** Calls into the library, in the order they are made. *)
Inductive JoseCall : Type :=
| CallSign (p : TokenPayload)
| CallJwtVerify (token : string).

(** An asynchronous helper: the library calls it made and its result. *)
Record Logged (A : Type) : Type := { calls : list JoseCall; value : A }.
Arguments calls {A} _.
Arguments value {A} _.

#[global] Instance logged_ret : MRet Logged := λ A a,
  {| calls := []; value := a |}.
#[global] Instance logged_bind : MBind Logged := λ A B f m,
  {| calls := calls m ++ calls (f (value m)); value := value (f (value m)) |}.

Definition call {A} (c : JoseCall) (a : A) : Logged A :=
  {| calls := [c]; value := a |}.

(** [try { ... } catch (error) { ... }] *)
Definition try_catch {A} (body : Js A) (handler : JsError → A) : A :=
  match body with
  | Return a => a
  | Throw e => handler e
  end.

Record AuthResult : Type := {
  authorized : bool;
  user : option TokenPayload;
  error : option string
}.

Section WithJose.

(** [process.env.JWT_SECRET] *)
Variable JWT_SECRET : option string.

(** [new SignJWT(..)...sign(key)] and [jwtVerify(token, key)] of the
    [jose] package; [jwtVerify] reads the clock (in seconds) and either
    returns the payload or throws. *)
Variable sign : Alg → TokenPayload → string → string.
Variable jwtVerify : string → string → Z → Js TokenPayload.

Definition secret : string :=
  or_else JWT_SECRET "your-secret-key-change-in-production".

Definition generateToken (body : Claims) (now : Z) : Logged string :=
  let b := setExpirationTime (Hours 24) now
             (setIssuedAt now
                (setProtectedHeader HS256 (newSignJWT body))) in
  token ← call (CallSign (payload b)) (sign HS256 (payload b) secret);
  mret token.

Definition verifyToken (token : string) (now : Z) : Logged (option TokenPayload) :=
  call (CallJwtVerify token)
    (try_catch
       (payload ← jwtVerify token secret now;
        mret (Some payload))
       (λ error, None)).

Definition getTokenFromRequest (request : NextRequest) (now : Z)
  : Logged (option TokenPayload) :=
  let authHeader := get request "authorization" in
  if negb (truthy authHeader) || negb (startsWith "Bearer " (default "" authHeader)) then
    mret None
  else
    let token := substring 7 (default "" authHeader) in
    verifyToken token now.

Definition requireAuth (request : NextRequest) (now : Z) : Logged AuthResult :=
  user ← getTokenFromRequest request now;
  match user with
  | None =>
      mret {| authorized := false;
              user := None;
              error := Some "Unauthorized - Invalid or missing token" |}
  | Some u =>
      mret {| authorized := true; user := Some u; error := None |}
  end.

End WithJose.

(** What the helpers rely on from the [jose] package: a token signed
    with a key verifies under that key to the payload it was signed over
    while the clock is before its [exp]; and it is rejected as expired
    once [exp <= now]. *)
Definition verifiesSigned
    (sign : Alg → TokenPayload → string → string)
    (jwtVerify : string → string → Z → Js TokenPayload) : Prop :=
  ∀ key p now,
    (∀ e, exp p = Some e → now < e) →
    jwtVerify (sign HS256 p key) key now = Return p.

Definition rejectsExpired
    (sign : Alg → TokenPayload → string → string)
    (jwtVerify : string → string → Z → Js TokenPayload) : Prop :=
  ∀ key p now e,
    exp p = Some e → e ≤ now →
    jwtVerify (sign HS256 p key) key now = Throw (JOSEError ERR_JWT_EXPIRED).

End Auth.

(** ** A reference instance of the library interface

    A token carries the key and the payload in clear, written as a decimal
    numeral. It is no signature scheme; it meets the contract the token
    helpers rely on, and lets them run. *)

Module RefJose.
Import Auth.

#[global] Instance claims_eq_dec : EqDecision Claims.
Proof. solve_decision. Defined.

#[global] Instance payload_eq_dec : EqDecision TokenPayload.
Proof. solve_decision. Defined.

#[global] Instance claims_countable : Countable Claims.
Proof.
  refine (inj_countable'
    (λ c, (userId c, username c, email c))
    (λ t, {| userId := t.1.1; username := t.1.2; email := t.2 |}) _).
  by intros [].
Defined.

#[global] Instance payload_countable : Countable TokenPayload.
Proof.
  refine (inj_countable'
    (λ p, (claims p, iat p, exp p))
    (λ t, {| claims := t.1.1; iat := t.1.2; exp := t.2 |}) _).
  by intros [].
Defined.

Definition sign (alg : Alg) (p : TokenPayload) (key : string) : string :=
  NilEmpty.string_of_uint (Pos.to_uint (encode (key, p))).

Definition parse (token : string) : option (string * TokenPayload) :=
  u ← NilEmpty.uint_of_string token;
  match Pos.of_uint u with
  | N0 => None
  | Npos q => decode q
  end.

Definition jwtVerify (token key : string) (now : Z) : Js TokenPayload :=
  match parse token with
  | None => Throw (JOSEError ERR_JWS_INVALID)
  | Some (k, p) =>
      if decide (k = key) then
        match exp p with
        | Some e =>
            if e <=? now then Throw (JOSEError ERR_JWT_EXPIRED) else Return p
        | None => Return p
        end
      else Throw (JOSEError ERR_JWS_SIGNATURE_VERIFICATION_FAILED)
  end.

End RefJose.

(** ** Exceptions of the client and of the route handlers *)

Module Effects.

(** An issue of a [ZodError]. *)
Record ZodIssue : Type := { path : list string; issue_message : string }.

(** What can be thrown, or a promise rejected with: an error of the
    language, [new Error(message)], a [ZodError], or the failure of a
    service outside the process (network, database, mail). *)
Inductive Exception : Type :=
| Native (e : JsError)
| Error (message : string)
| ZodError (issues : list ZodIssue)
| ServiceFailure (what : string).

Inductive Outcome (A : Type) : Type :=
| Done (a : A)
| Raise (e : Exception).
Arguments Done {A} a.
Arguments Raise {A} e.

#[global] Instance outcome_ret : MRet Outcome := @Done.
#[global] Instance outcome_bind : MBind Outcome := λ A B f m,
  match m with
  | Done a => f a
  | Raise e => Raise e
  end.

End Effects.

(** ** [src/lib/authClient.ts] *)

Module AuthClient.
Import Effects.

(** The browser state the helpers touch. On the server there is no
    [window]: the state is [None]. *)
Record Browser : Type := {
  localStorage : gmap string string;
  href : string
}.

Definition getAuthToken (window : option Browser) : option string :=
  match window with
  | None => None
  | Some b => localStorage b !! "admin_token"
  end.

Definition isAuthenticated (window : option Browser) : bool :=
  truthy (getAuthToken window).

Definition logout (window : option Browser) : option Browser :=
  match window with
  | None => None
  | Some b =>
      Some {| localStorage :=
                delete "admin_user" (delete "admin_token" (localStorage b));
              href := "/admin/login" |}
  end.

(** [Headers.prototype.set]: the name is matched without regard to case,
    the value is stripped of leading and trailing HTTP white space (TAB,
    LF, CR, SP) and must then hold no NUL, LF or CR. *)
Definition isHttpWhitespace (c : ascii) : bool :=
  let n := nat_of_ascii c in
  (n =? 9)%nat || (n =? 10)%nat || (n =? 13)%nat || (n =? 32)%nat.

Fixpoint stripStart (s : string) : string :=
  match s with
  | EmptyString => EmptyString
  | String c r => if isHttpWhitespace c then stripStart r else s
  end.

Fixpoint stripEnd (s : string) : string :=
  match s with
  | EmptyString => EmptyString
  | String c r =>
      match stripEnd r with
      | EmptyString => if isHttpWhitespace c then EmptyString else String c EmptyString
      | r' => String c r'
      end
  end.

Definition normalize (value : string) : string := stripEnd (stripStart value).

Fixpoint isHeaderValue (v : string) : bool :=
  match v with
  | EmptyString => true
  | String c r =>
      let n := nat_of_ascii c in
      negb ((n =? 0)%nat || (n =? 10)%nat || (n =? 13)%nat) && isHeaderValue r
  end.

Definition toLower (c : ascii) : ascii :=
  let n := nat_of_ascii c in
  if (65 <=? n)%nat && (n <=? 90)%nat then ascii_of_nat (n + 32) else c.

Fixpoint lowercase (s : string) : string :=
  match s with
  | EmptyString => EmptyString
  | String c r => String (toLower c) (lowercase r)
  end.

Definition Headers_set (h : gmap string string) (name value : string)
  : Outcome (gmap string string) :=
  let v := normalize value in
  if isHeaderValue v then Done (<[lowercase name := v]> h)
  else Raise (Native (TypeError "Invalid header value")).

(** [RequestInit]: the headers, as [new Headers(options.headers)] holds
    them (lower-case names), and the other options. *)
Record RequestInit (Rest : Type) : Type := {
  init_headers : gmap string string;
  rest : Rest
}.
Arguments init_headers {Rest} _.
Arguments rest {Rest} _.

(** A run of [authenticatedFetch]: the requests handed to [fetch], how the
    promise settles, and the browser state it leaves. *)
Record ClientRun (Rest Response : Type) : Type := {
  fetched : list (string * RequestInit Rest);
  outcome : Outcome Response;
  browser : option Browser
}.
Arguments fetched {Rest Response} _.
Arguments outcome {Rest Response} _.
Arguments browser {Rest Response} _.

Section WithFetch.

Context {Rest Response : Type}.
Variable status : Response → Z.
Variable fetch : string → RequestInit Rest → Outcome Response.

Definition authenticatedFetch (window : option Browser) (url : string)
    (options : RequestInit Rest) : ClientRun Rest Response :=
  let token := getAuthToken window in
  if negb (truthy token) then
    {| fetched := [];
       outcome := Raise (Error "Not authenticated");
       browser := logout window |}
  else
    match Headers_set (init_headers options) "Authorization"
            ("Bearer " +:+ default "" token) with
    | Raise e => {| fetched := []; outcome := Raise e; browser := window |}
    | Done headers =>
        let init := {| init_headers := headers; rest := rest options |} in
        match fetch url init with
        | Raise e =>
            {| fetched := [(url, init)]; outcome := Raise e; browser := window |}
        | Done response =>
            if status response =? 401 then
              {| fetched := [(url, init)];
                 outcome := Raise (Error "Session expired");
                 browser := logout window |}
            else
              {| fetched := [(url, init)];
                 outcome := Done response;
                 browser := window |}
        end
    end.

End WithFetch.

(** A token as they are issued: no white space and no NUL in it. *)
Fixpoint isToken (s : string) : bool :=
  match s with
  | EmptyString => true
  | String c r =>
      negb (isHttpWhitespace c) && negb (nat_of_ascii c =? 0)%nat && isToken r
  end.

End AuthClient.

(** ** [lib/validation]: [sanitizeHtml] *)

Module Validation.

(** [s.replace(/c/g, by)] for a one-character pattern; none of the
    replacement strings used below contains a [$] pattern. *)
Fixpoint replaceAll (c : ascii) (by_ : string) (s : string) : string :=
  match s with
  | EmptyString => EmptyString
  | String d r =>
      if Ascii.eqb d c then by_ +:+ replaceAll c by_ r
      else String d (replaceAll c by_ r)
  end.

Definition sanitizeHtml (html : string) : string :=
  replaceAll "/" "&#x2F;"
    (replaceAll "'" "&#x27;"
       (replaceAll "034" "&quot;"
          (replaceAll ">" "&gt;"
             (replaceAll "<" "&lt;"
                (replaceAll "&" "&amp;" html))))).

(** The characters [sanitizeHtml] looks for. *)
Definition special (c : ascii) : bool :=
  Ascii.eqb c "&" || Ascii.eqb c "<" || Ascii.eqb c ">" ||
  Ascii.eqb c "034" || Ascii.eqb c "'" || Ascii.eqb c "/".

(** The entity that stands for one character, and the string escaped one
    character at a time; compared with [sanitizeHtml] below. *)
Definition escapeChar (c : ascii) : string :=
  if Ascii.eqb c "&" then "&amp;"
  else if Ascii.eqb c "<" then "&lt;"
  else if Ascii.eqb c ">" then "&gt;"
  else if Ascii.eqb c "034" then "&quot;"
  else if Ascii.eqb c "'" then "&#x27;"
  else if Ascii.eqb c "/" then "&#x2F;"
  else String c EmptyString.

Fixpoint escape (s : string) : string :=
  match s with
  | EmptyString => EmptyString
  | String c r => escapeChar c +:+ escape r
  end.

(** [c] occurs in [s]. *)
Fixpoint occurs (c : ascii) (s : string) : bool :=
  match s with
  | EmptyString => false
  | String d r => Ascii.eqb d c || occurs c r
  end.

(** One of the six characters occurs in [s]. *)
Fixpoint hasSpecial (s : string) : bool :=
  match s with
  | EmptyString => false
  | String c r => special c || hasSpecial r
  end.

End Validation.

(** ** Runs of the rate limiter *)

Module Runs.
Import RateLimit.

(** The stores the process can be in: empty at start, then changed by
    [checkRateLimit] calls and by the sweep, in any order and at any clock
    readings. *)
Inductive reachable : gmap string RateLimitEntry → Prop :=
| reach_start : reachable ∅
| reach_check store request config now r store' :
    reachable store →
    checkRateLimit store request config now = Return (r, store') →
    reachable store'
| reach_sweep store now :
    reachable store →
    reachable (sweep store now).

(** No own entry under an inherited name. Every store the process reaches
    is of this kind, see [reachable_plainKeys]. *)
Definition plainKeys (store : gmap string RateLimitEntry) : Prop :=
  ∀ key e, store !! key = Some e → inherited key = false.

(** How many of the results are [allowed]. *)
Fixpoint allowedCount (rs : list RateLimitResult) : Z :=
  match rs with
  | [] => 0
  | r :: rest => (if allowed r then 1 else 0) + allowedCount rest
  end.

End Runs.

(** ** Concrete requests and configurations *)

Module Scenario.
Import RateLimit Auth.

Definition client : NextRequest :=
  request_of [("x-forwarded-for", "1.2.3.4")].

Definition proxied : NextRequest :=
  request_of [("x-forwarded-for", " 1.2.3.4 , 10.0.0.1");
              ("x-real-ip", "9.9.9.9"); ("user-agent", "curl/8")].

Definition emptyForwarded : NextRequest :=
  request_of [("x-forwarded-for", ""); ("x-real-ip", "10.0.0.1")].

Definition zeroConfig : RateLimitConfig :=
  {| maxRequests := 0; windowSeconds := 60; message := Some "No requests." |}.

Definition staleStore : gmap string RateLimitEntry :=
  {[ "1.2.3.4" := {| count := 99; resetAt := 5 |} ]}.

Definition liveStore : gmap string RateLimitEntry :=
  {[ "1.2.3.4" := {| count := 2; resetAt := 300000 |} ]}.

Definition admin : Claims :=
  {| userId := "u1"; username := "Admin"; email := "a@b.com" |}.

Definition bearer (token : string) : NextRequest :=
  request_of [("authorization", "Bearer " +:+ token)].

Definition basicAuth : NextRequest :=
  request_of [("authorization", "bearer abc")].

End Scenario.

(** ** [lib/validation]: [validate] *)

Module Validate.
Import Effects.

Record Validation (T : Type) : Type := {
  success : bool;
  data : option T;
  errors : option (list ZodIssue)
}.
Arguments success {T} _.
Arguments data {T} _.
Arguments errors {T} _.

(** [schema.parse] is the schema's own; it returns the parsed value or
    throws. Only a [ZodError] is turned into a result. *)
Definition validate {D T : Type} (schema_parse : D → Outcome T) (d : D)
  : Outcome (Validation T) :=
  match schema_parse d with
  | Done validatedData =>
      Done {| success := true; data := Some validatedData; errors := None |}
  | Raise (ZodError issues) =>
      Done {| success := false; data := None; errors := Some issues |}
  | Raise e => Raise e
  end.

End Validate.

(** ** Responses *)

Module Http.

(** What [NextResponse.json(body, init)] is given. *)
Record Response (J : Type) : Type := {
  status : Z;
  json : J;
  headers : list (string * string)
}.
Arguments status {J} _.
Arguments json {J} _.
Arguments headers {J} _.

(** [String(n)] for an integer. *)
Definition String_ (n : Z) : string := NilEmpty.string_of_int (Z.to_int n).

(** [String(v)] for an integer or [undefined]. *)
Definition String_or_undefined (v : option Z) : string :=
  match v with
  | Some n => String_ n
  | None => "undefined"
  end.

(** [parts.join(sep)] *)
Fixpoint join (sep : string) (parts : list string) : string :=
  match parts with
  | [] => EmptyString
  | [x] => x
  | x :: rest => x +:+ sep +:+ join sep rest
  end.

(** [try { ... } catch (error) { ... }] around the body of a handler. *)
Definition try_ {A} (body : Effects.Outcome A) (handler : A) : A :=
  match body with
  | Effects.Done a => a
  | Effects.Raise _ => handler
  end.

End Http.

(** ** [src/app/api/auth/login/route.ts]: [POST] *)

Module LoginRoute.
Import Effects RateLimit Http.

Record Credentials : Type := { username : string; password : string }.

(** A document of the [admins] collection. *)
Record Admin : Type := {
  _id : string;
  admin_username : string;
  admin_password : string;
  admin_email : string
}.

Record FieldError : Type := { field : string; field_message : string }.

Record User : Type := { user_username : string; user_email : string }.

(** The objects the handler answers with; an absent field is [None]. *)
Record Json : Type := {
  success : bool;
  error : option string;
  details : option (list FieldError);
  token : option string;
  user : option User
}.

Definition failure (message : option string) : Json :=
  {| success := false; error := message; details := None;
     token := None; user := None |}.

Section Handler.

Context {Body : Type}.
Variable JWT_SECRET : option string.
Variable sign : Auth.Alg → Auth.TokenPayload → string → string.
(** [loginSchema.parse]; [db.collection('admins').findOne({ username })],
    with the [await clientPromise] and [client.db] just before it, whose
    failure is a failure of [findOne]; and [bcrypt.compare]. *)
Variable loginSchema_parse : Body → Outcome Credentials.
Variable findOne : string → Outcome (option Admin).
Variable compare : string → string → Outcome bool.

Definition loginFailed : Response Json :=
  {| status := 500; json := failure (Some "Login failed"); headers := [] |}.

Definition invalidCredentials : Response Json :=
  {| status := 401; json := failure (Some "Invalid credentials"); headers := [] |}.

(** [body] is how [request.json()] settles, [now] the reading of
    [Date.now()] in the limiter and [issued] the clock of the token
    library, in seconds. *)
Definition POST (rateLimitStore : gmap string RateLimitEntry)
    (request : NextRequest) (body : Outcome Body) (now issued : Z)
  : Response Json * gmap string RateLimitEntry :=
  match checkRateLimit rateLimitStore request RATE_LIMITS.login now with
  | Throw _ => (loginFailed, rateLimitStore)
  | Return (rateLimit, store1) =>
      if negb (allowed rateLimit) then
        ({| status := 429;
            json := failure (RateLimit.error rateLimit);
            headers :=
              [("X-RateLimit-Limit", String_ (maxRequests RATE_LIMITS.login));
               ("X-RateLimit-Remaining", String_ (remaining rateLimit));
               ("X-RateLimit-Reset",
                String_or_undefined (result_resetAt rateLimit))] |},
         store1)
      else
        (try_
           (b ← body;
            validation ← Validate.validate loginSchema_parse b;
            if negb (Validate.success validation) then
              mret {| status := 400;
                      json :=
                        {| success := false;
                           error := Some "Invalid input";
                           details :=
                             option_map
                               (map (λ e, {| field := join "." (path e);
                                             field_message := issue_message e |}))
                               (Validate.errors validation);
                           token := None; user := None |};
                      headers := [] |}
            else
              credentials ←
                match Validate.data validation with
                | Some c => Done c
                | None => Raise (Native (TypeError "Cannot destructure undefined"))
                end;
              admin ← findOne (username credentials);
              match admin with
              | None => mret invalidCredentials
              | Some a =>
                  isValidPassword ← compare (password credentials) (admin_password a);
                  if negb isValidPassword then mret invalidCredentials
                  else
                    let t :=
                      Auth.value
                        (Auth.generateToken JWT_SECRET sign
                           {| Auth.userId := _id a;
                              Auth.username := admin_username a;
                              Auth.email := admin_email a |} issued) in
                    mret {| status := 200;
                            json :=
                              {| success := true; error := None; details := None;
                                 token := Some t;
                                 user := Some {| user_username := admin_username a;
                                                 user_email := admin_email a |} |};
                            headers := [] |}
              end)
           loginFailed,
         store1)
  end.

End Handler.

End LoginRoute.

(** ** [src/app/api/education/route.ts]: [DELETE]

    The handlers that change the experiences, projects and skills follow
    the same steps. *)

Module EducationRoute.
Import Effects RateLimit Http.

Record Json : Type := { success : bool; error : option string }.

Section Handler.

Context {DB : Type}.
Variable JWT_SECRET : option string.
Variable jwtVerify : string → string → Z → Js Auth.TokenPayload.
(** How [await clientPromise] settles: the connection, or its failure. *)
Variable clientPromise : Outcome unit.
(** [db.collection('education').deleteOne({ _id: new ObjectId(id) })]: the
    number of documents deleted and the database after it; it throws for
    an [id] that is no object id. *)
Variable deleteOne : DB → string → Outcome (Z * DB).

Definition deleteFailed : Response Json :=
  {| status := 500;
     json := {| success := false;
                error := Some "Failed to delete education record" |};
     headers := [] |}.

(** [id] is [request.nextUrl.searchParams.get('id')], [clock] the clock of
    the token library, in seconds, and [now] the reading of [Date.now()]
    in the limiter. *)
Definition DELETE (rateLimitStore : gmap string RateLimitEntry) (db : DB)
    (request : NextRequest) (id : option string) (clock now : Z)
  : Response Json * gmap string RateLimitEntry * DB :=
  let authCheck := Auth.value (Auth.requireAuth JWT_SECRET jwtVerify request clock) in
  if negb (Auth.authorized authCheck) then
    ({| status := 401;
        json := {| success := false; error := Auth.error authCheck |};
        headers := [] |}, rateLimitStore, db)
  else
    match checkRateLimit rateLimitStore request RATE_LIMITS.api now with
    | Throw _ => (deleteFailed, rateLimitStore, db)
    | Return (rateLimit, store1) =>
        if negb (allowed rateLimit) then
          ({| status := 429;
              json := {| success := false; error := RateLimit.error rateLimit |};
              headers := [] |}, store1, db)
        else
          match clientPromise with
          | Raise _ => (deleteFailed, store1, db)
          | Done _ =>
              if negb (truthy id) then
                ({| status := 400;
                    json := {| success := false;
                               error := Some "Education ID is required" |};
                    headers := [] |}, store1, db)
              else
                match deleteOne db (default "" id) with
                | Raise _ => (deleteFailed, store1, db)
                | Done (deletedCount, db1) =>
                    if deletedCount =? 0 then
                      ({| status := 404;
                          json := {| success := false;
                                     error := Some "Education record not found" |};
                          headers := [] |}, store1, db1)
                    else
                      ({| status := 200;
                          json := {| success := true; error := None |};
                          headers := [] |}, store1, db1)
                end
          end
    end.

End Handler.

End EducationRoute.

(** ** Concrete browser states *)

Module Cases.
Import Effects AuthClient.

Definition signedIn : option Browser :=
  Some {| localStorage :=
            {[ "admin_token" := "abc.def.ghi"; "admin_user" := "Admin";
               "theme" := "dark" ]};
          href := "/admin" |}.

Definition signedOut : option Browser :=
  Some {| localStorage := {[ "theme" := "dark" ]}; href := "/admin" |}.

Definition jsonOptions : RequestInit unit :=
  {| init_headers :=
       {[ "content-type" := "application/json"; "authorization" := "Basic xyz" ]};
     rest := () |}.

(** A server that answers every request with the given status. *)
Definition answer (code : Z) (url : string) (init : RequestInit unit) : Outcome Z :=
  Done code.

(** An [admins] collection with one document, a password check that
    compares with a marked copy, and a body that is already parsed. *)
Definition adminDoc : LoginRoute.Admin :=
  {| LoginRoute._id := "64f0c0ffee";
     LoginRoute.admin_username := "admin";
     LoginRoute.admin_password := "hashed:s3cret!";
     LoginRoute.admin_email := "a@b.com" |}.

Definition findAdmin (name : string) : Outcome (option LoginRoute.Admin) :=
  Done (if String.eqb name "admin" then Some adminDoc else None).

Definition noAdmins (name : string) : Outcome (option LoginRoute.Admin) :=
  Done None.

Definition comparePassword (given stored : string) : Outcome bool :=
  Done (String.eqb ("hashed:" +:+ given) stored).

Definition parsed (b : LoginRoute.Credentials) : Outcome LoginRoute.Credentials :=
  Done b.

Definition goodLogin : LoginRoute.Credentials :=
  {| LoginRoute.username := "admin"; LoginRoute.password := "s3cret!" |}.

Definition badLogin : LoginRoute.Credentials :=
  {| LoginRoute.username := "admin"; LoginRoute.password := "guess" |}.

(** A client that sends the name of an inherited property as its
    address. *)
Definition constructorClient : NextRequest :=
  request_of [("x-forwarded-for", "constructor")].

Definition blockedStore : gmap string RateLimit.RateLimitEntry :=
  {[ "1.2.3.4" := {| RateLimit.count := 5; RateLimit.resetAt := 300000 |} ]}.

(** A request that carries a token of the reference instance, signed
    with the default key and without expiry. *)
Definition adminRequest : NextRequest :=
  Scenario.bearer
    (RefJose.sign Auth.HS256
       {| Auth.claims := Scenario.admin; Auth.iat := None; Auth.exp := None |}
       "your-secret-key-change-in-production").

(** A collection held as the list of its ids. *)
Definition deleteById (db : list string) (id : string) : Outcome (Z * list string) :=
  if bool_decide (id ∈ db)
  then Done (1, filter (λ x, x ≠ id) db)
  else Done (0, db).

End Cases.

(** * Properties *)

(** ** Rate limiter *)

Module RateLimitProps.
Import RateLimit.

Ltac js_step := cbn [mbind mret js_bind js_ret].

Lemma split_cons sep s : ∃ h t, split sep s = h :: t.
Proof.
  induction s as [|c r IH]; cbn [split]; [by eauto|].
  destruct (Ascii.eqb c sep); [by eauto|].
  destruct IH as (h & t & ->). by eauto.
Qed.

Lemma split_first s : split "," s !! 0%nat = Some (firstSegment s).
Proof.
  induction s as [|c r IH]; cbn [split firstSegment]; [done|].
  destruct (Ascii.eqb c ","); [done|].
  destruct (split_cons "," r) as (h & t & E).
  rewrite E in IH |- *. cbn in IH |- *. congruence.
Qed.

Lemma truthy_Some v : truthy v = true → ∃ s, v = Some s ∧ s ≠ "".
Proof. destruct v as [[|c r]|]; cbn; intros; try done. by eexists. Qed.

Lemma truthy_blank v : truthy v = false ↔ blank v.
Proof.
  unfold blank. destruct v as [[|c r]|]; cbn; split; intros H; auto;
    try done; destruct H; done.
Qed.

Lemma getClientIdentifier_total request :
  ∃ key, getClientIdentifier request = Return key.
Proof.
  unfold getClientIdentifier.
  destruct (truthy (get request "x-forwarded-for")).
  - unfold index. rewrite split_first. js_step. by eauto.
  - destruct (truthy (get request "x-real-ip")); by eauto.
Qed.

Section Branches.
Context (store : gmap string RateLimitEntry) (request : NextRequest)
        (config : RateLimitConfig) (now : Z) (key : string).
Hypothesis Hkey : getClientIdentifier request = Return key.

(** First branch: the entry is created or replaced. Without an own entry
    the branch is taken when the name is not an inherited one. *)
Lemma checkRateLimit_fresh :
  noLiveEntry store key now →
  (store !! key = None → inherited key = false) →
  checkRateLimit store request config now =
    Return ({| allowed := true;
               remaining := maxRequests config - 1;
               result_resetAt := Some (now + windowSeconds config * 1000);
               error := None |},
            <[key := {| count := 1;
                        resetAt := now + windowSeconds config * 1000 |}]> store).
Proof.
  unfold noLiveEntry, checkRateLimit. rewrite Hkey. js_step.
  unfold member.
  destruct (store !! key) as [e|] eqn:E; js_step.
  - intros Hlt _. apply Z.ltb_lt in Hlt. rewrite Hlt.
    rewrite lookup_insert_eq. by js_step.
  - intros _ Hown. rewrite (Hown eq_refl). cbn [negb].
    rewrite lookup_insert_eq. by js_step.
Qed.

(** An inherited name without an own entry: the request is denied, the
    result has no reset time and the store is left as it is. *)
Lemma checkRateLimit_inherited :
  store !! key = None →
  inherited key = true →
  checkRateLimit store request config now =
    Return ({| allowed := false;
               remaining := 0;
               result_resetAt := None;
               error := Some (or_else (message config) defaultMessage) |},
            store).
Proof.
  intros E Hin. unfold checkRateLimit. rewrite Hkey. js_step.
  rewrite E. js_step. rewrite Hin. reflexivity.
Qed.

(** The three ways a lookup can come out. *)
Lemma lookup_cases :
  (noLiveEntry store key now ∧ (store !! key = None → inherited key = false)) ∨
  (∃ e, store !! key = Some e ∧ ¬ (resetAt e < now)) ∨
  (store !! key = None ∧ inherited key = true).
Proof.
  unfold noLiveEntry. destruct (store !! key) as [e|] eqn:E.
  - destruct (Z.lt_ge_cases (resetAt e) now) as [Hpast|Hlive].
    + left. by split.
    + right. left. exists e. split; [done|lia].
  - destruct (inherited key) eqn:Hin.
    + right. by right.
    + left. by split.
Qed.

Lemma checkRateLimit_expired e :
  store !! key = Some e →
  resetAt e < now →
  checkRateLimit store request config now =
    Return ({| allowed := true;
               remaining := maxRequests config - 1;
               result_resetAt := Some (now + windowSeconds config * 1000);
               error := None |},
            <[key := {| count := 1;
                        resetAt := now + windowSeconds config * 1000 |}]> store).
Proof.
  intros E Hpast. apply checkRateLimit_fresh.
  - unfold noLiveEntry. by rewrite E.
  - by rewrite E.
Qed.

(** Second branch: the entry is incremented in place. *)
Lemma checkRateLimit_live e :
  store !! key = Some e →
  ¬ (resetAt e < now) →
  checkRateLimit store request config now =
    Return (if count e + 1 <=? maxRequests config
            then {| allowed := true;
                    remaining := Z.max 0 (maxRequests config - (count e + 1));
                    result_resetAt := Some (resetAt e);
                    error := None |}
            else {| allowed := false;
                    remaining := 0;
                    result_resetAt := Some (resetAt e);
                    error := Some (or_else (message config) defaultMessage) |},
            <[key := {| count := count e + 1; resetAt := resetAt e |}]> store).
Proof.
  intros E Hlive. unfold checkRateLimit. rewrite Hkey. js_step.
  unfold member. rewrite E. js_step.
  assert ((resetAt e <? now) = false) as -> by (apply Z.ltb_ge; lia).
  rewrite lookup_insert_eq. js_step. cbn [count resetAt].
  by destruct (count e + 1 <=? maxRequests config).
Qed.

End Branches.

(** The result of the request that brings the count of a live entry to
    [n]. *)
Lemma checkRateLimit_count store request config now key c R :
  getClientIdentifier request = Return key →
  store !! key = Some {| count := c; resetAt := R |} →
  ¬ (R < now) →
  ∃ r,
    checkRateLimit store request config now =
      Return (r, <[key := {| count := c + 1; resetAt := R |}]> store) ∧
    result_resetAt r = Some R ∧
    (c + 1 ≤ maxRequests config →
       allowed r = true ∧ remaining r = Z.max 0 (maxRequests config - (c + 1)) ∧
       error r = None) ∧
    (maxRequests config < c + 1 →
       allowed r = false ∧ remaining r = 0 ∧
       error r = Some (or_else (message config) defaultMessage)).
Proof.
  intros Hkey E Hlive.
  rewrite (checkRateLimit_live _ _ _ _ _ Hkey _ E Hlive). cbn [count resetAt].
  eexists. split; [reflexivity|].
  destruct (Z.leb_spec (c + 1) (maxRequests config)); cbn; repeat split; lia.
Qed.

(** Requests that all arrive while the entry of [key] is live. *)
Lemma serve_live request config key ts :
  getClientIdentifier request = Return key →
  ∀ store c R,
    store !! key = Some {| count := c; resetAt := R |} →
    Forall (λ t, t ≤ R) ts →
    ∃ rs store',
      serve store request config ts = Return (rs, store') ∧
      store' !! key = Some {| count := c + Z.of_nat (length ts); resetAt := R |} ∧
      length rs = length ts ∧
      ∀ (i : nat) r, rs !! i = Some r →
        result_resetAt r = Some R ∧
        (c + Z.of_nat i + 1 ≤ maxRequests config →
           allowed r = true ∧
           remaining r = Z.max 0 (maxRequests config - (c + Z.of_nat i + 1)) ∧
           error r = None) ∧
        (maxRequests config < c + Z.of_nat i + 1 →
           allowed r = false ∧ remaining r = 0 ∧
           error r = Some (or_else (message config) defaultMessage)).
Proof.
  intros Hkey. induction ts as [|t rest IH]; intros store c R E Hts.
  - exists [], store. cbn [serve length]. js_step.
    repeat split; try done. by rewrite E, Z.add_0_r.
  - inversion Hts as [|? ? Ht Hrest]; subst.
    destruct (checkRateLimit_count store request config t key c R Hkey E)
      as (r & Hr & HR & Hle & Hgt); [lia|].
    destruct (IH (<[key := {| count := c + 1; resetAt := R |}]> store) (c + 1) R)
      as (rs & store' & Hrs & Hstore & Hlen & Hall);
      [apply lookup_insert_eq | done |].
    exists (r :: rs), store'. cbn [serve]. rewrite Hr. js_step.
    rewrite Hrs. js_step.
    split; [done|]. split; [|split].
    + rewrite Hstore. do 2 f_equal. cbn [length]. lia.
    + cbn [length]. by rewrite Hlen.
    + intros [|i] r' Hi; cbn in Hi.
      * injection Hi as <-. replace (c + Z.of_nat 0 + 1) with (c + 1) by lia.
        split; [exact HR | split; [exact Hle | exact Hgt]].
      * replace (c + Z.of_nat (S i) + 1) with (c + 1 + Z.of_nat i + 1) by lia.
        by apply Hall.
Qed.

(** The sweep only removes entries that the next access would replace:
    a check after a sweep decides as it would have without it. *)
Lemma sweep_lookup store swept key :
  sweep store swept !! key =
    match store !! key with
    | Some e => if decide (resetAt e < swept) then None else Some e
    | None => None
    end.
Proof.
  unfold sweep. destruct (store !! key) as [e|] eqn:E.
  - destruct (decide (resetAt e < swept)) as [Hlt|Hge].
    + apply map_lookup_filter_None. right. intros e' E'. cbn. congruence.
    + apply map_lookup_filter_Some. by split.
  - apply map_lookup_filter_None. by left.
Qed.

(** X10. A sweep never changes what the limiter answers: in a store whose
    own keys are not inherited names, as every store the process reaches
    is, a check made at or after the time of a sweep returns the decision
    it would have returned had the sweep not run. *)
Lemma sweep_preserves_decision store request config swept now :
  Runs.plainKeys store →
  swept ≤ now →
  ∃ r store1 store2,
    checkRateLimit store request config now = Return (r, store1) ∧
    checkRateLimit (sweep store swept) request config now = Return (r, store2).
Proof.
  intros Hplain Hle. destruct (getClientIdentifier_total request) as [key Hkey].
  pose proof (sweep_lookup store swept key) as Hs.
  destruct (store !! key) as [e|] eqn:E.
  - destruct (Z.lt_ge_cases (resetAt e) now) as [Hpast|Hlive].
    + rewrite (checkRateLimit_expired store request config now key Hkey e E Hpast).
      rewrite (checkRateLimit_fresh (sweep store swept) request config now key Hkey).
      * by do 3 eexists.
      * unfold noLiveEntry. rewrite Hs. by destruct (decide (resetAt e < swept)).
      * intros _. by apply (Hplain key e).
    + rewrite decide_False in Hs by lia.
      rewrite (checkRateLimit_live store request config now key Hkey e E); [|lia].
      rewrite (checkRateLimit_live (sweep store swept) request config now key Hkey e Hs);
        [|lia].
      by do 3 eexists.
  - destruct (inherited key) eqn:Hin.
    + rewrite (checkRateLimit_inherited store request config now key Hkey E Hin).
      rewrite (checkRateLimit_inherited (sweep store swept) request config now key
                 Hkey Hs Hin).
      by do 3 eexists.
    + rewrite (checkRateLimit_fresh store request config now key Hkey);
        [|unfold noLiveEntry; by rewrite E|done].
      rewrite (checkRateLimit_fresh (sweep store swept) request config now key Hkey);
        [|unfold noLiveEntry; by rewrite Hs|done].
      by do 3 eexists.
Qed.

(** The scenario of the specification: five login requests at t = 0, a
    sixth at t = 10 s, a seventh at t = 301 s. *)
Example login_scenario :
  ∃ store',
    serve ∅ Scenario.client RATE_LIMITS.login [0; 0; 0; 0; 0; 10000; 301000] =
      Return
        ([ {| allowed := true; remaining := 4; result_resetAt := Some 300000; error := None |};
           {| allowed := true; remaining := 3; result_resetAt := Some 300000; error := None |};
           {| allowed := true; remaining := 2; result_resetAt := Some 300000; error := None |};
           {| allowed := true; remaining := 1; result_resetAt := Some 300000; error := None |};
           {| allowed := true; remaining := 0; result_resetAt := Some 300000; error := None |};
           {| allowed := false; remaining := 0; result_resetAt := Some 300000;
              error := Some "Too many login attempts. Please try again in 5 minutes." |};
           {| allowed := true; remaining := 4; result_resetAt := Some 601000; error := None |} ],
         store').
Proof. eexists. vm_compute. reflexivity. Qed.

Example proxied_key : getClientIdentifier Scenario.proxied = Return "1.2.3.4".
Proof. reflexivity. Qed.

(** C3. When the stored entry of the client key has its reset timestamp
    in the past ([resetAt < now]), the call replaces it with
    [{count: 1, resetAt: now + window}] (the window of [windowSeconds]
    seconds, in the milliseconds of the clock) and returns [allowed = true]
    with [remaining = maxRequests - 1], whatever the prior count. *)
Theorem expired_entry_is_replaced store request config now key e :
  getClientIdentifier request = Return key →
  store !! key = Some e →
  resetAt e < now →
  ∃ r,
    checkRateLimit store request config now =
      Return (r, <[key := {| count := 1;
                             resetAt := now + windowSeconds config * 1000 |}]> store) ∧
    allowed r = true ∧
    remaining r = maxRequests config - 1.
Proof.
  intros Hkey E Hpast.
  rewrite (checkRateLimit_expired store request config now key Hkey e E Hpast).
  by eexists.
Qed.

Lemma expired_entry_is_replaced_witness :
  ∃ r,
    checkRateLimit Scenario.staleStore Scenario.client RATE_LIMITS.login 10 =
      Return (r, <["1.2.3.4" := {| count := 1; resetAt := 10 + 300 * 1000 |}]>
                   Scenario.staleStore) ∧
    allowed r = true ∧ remaining r = 5 - 1.
Proof.
  apply (expired_entry_is_replaced Scenario.staleStore Scenario.client
           RATE_LIMITS.login 10 "1.2.3.4" {| count := 99; resetAt := 5 |}).
  - reflexivity.
  - reflexivity.
  - cbn. lia.
Defined.

(** For a client key that is not an inherited name: with no live entry
    the call returns [allowed = true] for every [maxRequests], also 0, and
    [remaining = maxRequests - 1] unclamped; on the increment path
    [remaining] is clamped at zero. *)
Lemma first_request_allowed_unclamped store request config now key :
  getClientIdentifier request = Return key →
  inherited key = false →
  (noLiveEntry store key now →
     ∃ r store',
       checkRateLimit store request config now = Return (r, store') ∧
       allowed r = true ∧
       remaining r = maxRequests config - 1 ∧
       (maxRequests config ≤ 0 → remaining r < 0)) ∧
  (∀ e, store !! key = Some e → ¬ (resetAt e < now) →
     ∃ r store',
       checkRateLimit store request config now = Return (r, store') ∧
       0 ≤ remaining r).
Proof.
  intros Hkey Hplain. split.
  - intros Hfresh.
    rewrite (checkRateLimit_fresh store request config now key Hkey Hfresh);
      [|done].
    do 2 eexists. split; [reflexivity|]. cbn. repeat split; lia.
  - intros e E Hlive.
    rewrite (checkRateLimit_live store request config now key Hkey e E Hlive).
    do 2 eexists. split; [reflexivity|].
    destruct (count e + 1 <=? maxRequests config); cbn; lia.
Qed.

(** C10, on the code. The claim fails for a client key that names a
    property every plain object inherits: with an empty store and
    [X-Forwarded-For: constructor] there is no entry for the key, yet the
    lookup finds the inherited value, the first branch is skipped, and the
    first request is denied with [remaining = 0] and no reset time; nothing
    is stored, so every later request of that client is denied as well. *)
Theorem inherited_key_first_request_denied :
  getClientIdentifier Cases.constructorClient = Return "constructor" ∧
  noLiveEntry ∅ "constructor" 0 ∧
  checkRateLimit ∅ Cases.constructorClient RATE_LIMITS.login 0 =
    Return ({| allowed := false;
               remaining := 0;
               result_resetAt := None;
               error := Some "Too many login attempts. Please try again in 5 minutes." |},
            ∅) ∧
  checkRateLimit ∅ Cases.constructorClient Scenario.zeroConfig 0 =
    Return ({| allowed := false;
               remaining := 0;
               result_resetAt := None;
               error := Some "No requests." |},
            ∅).
Proof. repeat split. Qed.

(** C9. [checkRateLimit] returns for every store, request, configuration
    and clock reading: none of its property reads throws, and the result
    is a decision whose [error] is present exactly when it is denied. *)
Theorem checkRateLimit_never_throws store request config now :
  ∃ r store',
    checkRateLimit store request config now = Return (r, store') ∧
    (allowed r = false ↔ is_Some (error r)).
Proof.
  destruct (getClientIdentifier_total request) as [key Hkey].
  destruct (lookup_cases store now key) as [[Hfresh Hown]|[(e & E & Hlive)|[E Hin]]].
  - rewrite (checkRateLimit_fresh store request config now key Hkey Hfresh Hown).
    do 2 eexists. split; [reflexivity|]. cbn. split; [done|].
    by intros [? ?].
  - rewrite (checkRateLimit_live store request config now key Hkey e E Hlive).
    do 2 eexists. split; [reflexivity|].
    destruct (count e + 1 <=? maxRequests config); cbn.
    + split; [done|]. by intros [? ?].
    + split; [by eauto|done].
  - rewrite (checkRateLimit_inherited store request config now key Hkey E Hin).
    do 2 eexists. split; [reflexivity|]. cbn. split; [by eauto|done].
Qed.

(** C2, as amended. For a client key that is not the name of a property
    inherited from [Object.prototype], and a configuration with
    [maxRequests = N >= 1], a client whose first request finds no live
    entry and whose later requests all arrive within the window it opens
    ([t <= t1 + window]) gets [allowed = true] for requests 1 to N, the
    first with [remaining = N - 1] and the n-th with
    [remaining = max 0 (N - n)], where n is the count stored by that
    request; request N + 1 gets [allowed = false], [remaining = 0] and as
    [error] the configured message, or the default message when none, or an
    empty one, is configured. *)
Theorem requests_within_one_window store request config key t1 ts :
  getClientIdentifier request = Return key →
  inherited key = false →
  1 ≤ maxRequests config →
  noLiveEntry store key t1 →
  Forall (λ t, t ≤ t1 + windowSeconds config * 1000) ts →
  ∃ rs store',
    serve store request config (t1 :: ts) = Return (rs, store') ∧
    length rs = length (t1 :: ts) ∧
    store' !! key =
      Some {| count := Z.of_nat (length (t1 :: ts));
              resetAt := t1 + windowSeconds config * 1000 |} ∧
    ∀ (i : nat) r, rs !! i = Some r →
      let n := Z.of_nat i + 1 in
      (n = 1 → allowed r = true ∧ remaining r = maxRequests config - 1) ∧
      (2 ≤ n ≤ maxRequests config →
         allowed r = true ∧ remaining r = Z.max 0 (maxRequests config - n)) ∧
      (n = maxRequests config + 1 →
         allowed r = false ∧ remaining r = 0 ∧
         (∀ m, message config = Some m → m ≠ "" → error r = Some m) ∧
         (blank (message config) → error r = Some defaultMessage)).
Proof.
  intros Hkey Hplain HN Hfresh Hts.
  pose (R := t1 + windowSeconds config * 1000).
  destruct (serve_live request config key ts Hkey
              (<[key := {| count := 1; resetAt := R |}]> store) 1 R)
    as (rs & store' & Hrs & Hstore & Hlen & Hall);
    [apply lookup_insert_eq | done |].
  eexists _, store'. cbn [serve].
  rewrite (checkRateLimit_fresh store request config t1 key Hkey Hfresh);
    [|done].
  js_step. fold R. rewrite Hrs. js_step.
  split; [reflexivity|]. split; [cbn [length]; by rewrite Hlen|].
  split; [rewrite Hstore; do 2 f_equal; cbn [length]; lia|].
  intros [|i] r Hi; cbn in Hi.
  - injection Hi as <-. cbn. repeat split; lia.
  - destruct (Hall i r Hi) as (_ & Hle & Hgt).
    split; [lia|]. split.
    + intros Hn. destruct Hle as (Ha & Hr & _); [lia|].
      split; [done|]. rewrite Hr. f_equal. lia.
    + intros Hn. destruct Hgt as (Ha & Hr & He); [lia|].
      split; [done|]. split; [done|]. rewrite He. split.
      * intros m -> Hm. by destruct m.
      * by intros [-> | ->].
Qed.

Lemma requests_within_one_window_witness :
  ∃ rs store',
    serve ∅ Scenario.client RATE_LIMITS.login (0 :: [0; 0; 0; 0; 10000]) =
      Return (rs, store') ∧
    length rs = length (0 :: [0; 0; 0; 0; 10000]) ∧
    store' !! "1.2.3.4" =
      Some {| count := Z.of_nat (length (0 :: [0; 0; 0; 0; 10000]));
              resetAt := 0 + 300 * 1000 |} ∧
    ∀ (i : nat) r, rs !! i = Some r →
      let n := Z.of_nat i + 1 in
      (n = 1 → allowed r = true ∧ remaining r = 5 - 1) ∧
      (2 ≤ n ≤ 5 → allowed r = true ∧ remaining r = Z.max 0 (5 - n)) ∧
      (n = 5 + 1 →
         allowed r = false ∧ remaining r = 0 ∧
         (∀ m, message RATE_LIMITS.login = Some m → m ≠ "" → error r = Some m) ∧
         (blank (message RATE_LIMITS.login) → error r = Some defaultMessage)).
Proof.
  apply (requests_within_one_window ∅ Scenario.client RATE_LIMITS.login
           "1.2.3.4" 0 [0; 0; 0; 0; 10000]).
  - reflexivity.
  - reflexivity.
  - cbn. lia.
  - exact I.
  - cbn. repeat constructor; lia.
Defined.

(** C2 as stated fails where [maxRequests = 0]: request N + 1 is the
    first one, and it is allowed with [remaining = -1]; and where no
    message is configured, as in the default configuration, the error of
    request N + 1 is the default message, not the (absent) configured
    one. *)
Lemma zero_limit_first_request_allowed :
  (∃ r store',
     serve ∅ Scenario.client Scenario.zeroConfig [0] = Return ([r], store') ∧
     allowed r = true ∧ remaining r = -1) ∧
  (∃ rs store' r,
     serve ∅ Scenario.client defaultConfig (replicate 11 0) = Return (rs, store') ∧
     rs !! 10%nat = Some r ∧
     allowed r = false ∧
     error r = Some defaultMessage ∧ error r ≠ message defaultConfig).
Proof.
  split.
  - do 2 eexists. split; [vm_compute; reflexivity|]. by split.
  - do 3 eexists. split; [vm_compute; reflexivity|].
    split; [reflexivity|]. by repeat split.
Qed.

(** C1, on the code. The store holds one entry per client key, whatever
    the configuration of the call, so the limiters are not independent.
    After three requests counted under [api] at t = 0, the client's first
    [contact] request is denied with the contact message, the count being
    4 and the window the one [api] opened; on the untouched store the same
    request is allowed with two remaining. After five public reads, the
    client's first [login] request is denied, in a window of 60 s where
    the login configuration says 300 s. *)
Theorem limiters_share_one_counter :
  (∃ rs store1 store2 store2',
     serve ∅ Scenario.client RATE_LIMITS.api [0; 0; 0] = Return (rs, store1) ∧
     checkRateLimit store1 Scenario.client RATE_LIMITS.contact 1 =
       Return ({| allowed := false;
                  remaining := 0;
                  result_resetAt := Some 60000;
                  error :=
                    Some "Too many contact form submissions. Please try again later." |},
               store2) ∧
     store2 !! "1.2.3.4" = Some {| count := 4; resetAt := 60000 |} ∧
     checkRateLimit ∅ Scenario.client RATE_LIMITS.contact 1 =
       Return ({| allowed := true;
                  remaining := 2;
                  result_resetAt := Some 3600001;
                  error := None |},
               store2')) ∧
  (∃ rs store1 store2,
     serve ∅ Scenario.client RATE_LIMITS.publicRead [0; 0; 0; 0; 0] =
       Return (rs, store1) ∧
     checkRateLimit store1 Scenario.client RATE_LIMITS.login 1 =
       Return ({| allowed := false;
                  remaining := 0;
                  result_resetAt := Some 60000;
                  error :=
                    Some "Too many login attempts. Please try again in 5 minutes." |},
               store2) ∧
     store2 !! "1.2.3.4" = Some {| count := 6; resetAt := 60000 |}).
Proof.
  split.
  - do 4 eexists. split; [vm_compute; reflexivity|].
    split; [vm_compute; reflexivity|]. split; [reflexivity|].
    vm_compute; reflexivity.
  - do 3 eexists. split; [vm_compute; reflexivity|].
    split; [vm_compute; reflexivity|]. reflexivity.
Qed.

(** C4, as amended. The client key is, in this order: when the
    [X-Forwarded-For] header is present and not empty, its first
    comma-separated segment with surrounding white space trimmed;
    otherwise, when [X-Real-IP] is present and not empty, its value;
    otherwise, when [User-Agent] is present and not empty, its value;
    otherwise the literal ["unknown"]. A header present with an empty
    value counts as absent. *)
Theorem client_key_priority request :
  (∀ f, get request "x-forwarded-for" = Some f → f ≠ "" →
     getClientIdentifier request = Return (trim (firstSegment f))) ∧
  (blank (get request "x-forwarded-for") →
   ∀ ip, get request "x-real-ip" = Some ip → ip ≠ "" →
     getClientIdentifier request = Return ip) ∧
  (blank (get request "x-forwarded-for") →
   blank (get request "x-real-ip") →
   ∀ ua, get request "user-agent" = Some ua → ua ≠ "" →
     getClientIdentifier request = Return ua) ∧
  (blank (get request "x-forwarded-for") →
   blank (get request "x-real-ip") →
   blank (get request "user-agent") →
     getClientIdentifier request = Return "unknown").
Proof.
  unfold getClientIdentifier. repeat split.
  - intros f -> Hf. destruct f as [|c f]; [done|]. cbn [truthy default].
    unfold index. rewrite split_first. by js_step.
  - intros Hx%truthy_blank ip -> Hip. rewrite Hx.
    by destruct ip.
  - intros Hx%truthy_blank Hr%truthy_blank ua -> Hua. rewrite Hx, Hr.
    by destruct ua.
  - intros Hx%truthy_blank Hr%truthy_blank Hu. rewrite Hx, Hr.
    by destruct Hu as [-> | ->].
Qed.

(** C4 as stated fails for a header that is present with an empty value:
    an empty [X-Forwarded-For] does not give the key [""], the code goes
    on to [X-Real-IP]; likewise an empty [User-Agent] gives ["unknown"]. *)
Lemma empty_forwarded_for_is_skipped :
  get Scenario.emptyForwarded "x-forwarded-for" = Some "" ∧
  getClientIdentifier Scenario.emptyForwarded = Return "10.0.0.1" ∧
  getClientIdentifier Scenario.emptyForwarded ≠ Return (trim (firstSegment "")) ∧
  get (request_of [("user-agent", "")]) "user-agent" = Some "" ∧
  getClientIdentifier (request_of [("user-agent", "")]) = Return "unknown".
Proof. repeat split; try reflexivity. discriminate. Qed.

End RateLimitProps.

(** ** Token helpers *)

Module AuthProps.
Import Auth.

Lemma startsWith_app p t : startsWith p (p +:+ t) = true.
Proof.
  unfold startsWith. induction p as [|c p IH].
  - by destruct t.
  - change (String c p +:+ t) with (String c (p +:+ t)). cbn [String.prefix].
    destruct (ascii_dec c c); [done|congruence].
Qed.

Lemma startsWith_inv p s : startsWith p s = true → ∃ t, s = p +:+ t.
Proof.
  unfold startsWith. revert s. induction p as [|c p IH]; intros s H.
  - by exists s.
  - destruct s as [|d s]; cbn in H; [done|].
    destruct (ascii_dec c d) as [->|]; [|done].
    destruct (IH s H) as [t ->]. by exists t.
Qed.

Lemma substring_all s : String.substring 0 (String.length s) s = s.
Proof. induction s as [|c s IH]; cbn; [done|]. by rewrite IH. Qed.

Lemma substring_bearer t : substring 7 ("Bearer " +:+ t) = t.
Proof.
  unfold substring. cbv [String.append]. cbn.
  rewrite Nat.sub_0_r. apply substring_all.
Qed.

(** The reference instance meets the contract. *)
Lemma parse_sign alg p key :
  RefJose.parse (RefJose.sign alg p key) = Some (key, p).
Proof.
  unfold RefJose.parse, RefJose.sign.
  rewrite NilEmpty.usu. simpl.
  rewrite DecimalPos.Unsigned.of_to.
  apply decode_encode.
Qed.

Lemma ref_verifiesSigned : verifiesSigned RefJose.sign RefJose.jwtVerify.
Proof.
  intros key p now Hexp. unfold RefJose.jwtVerify.
  rewrite parse_sign. rewrite decide_True by done.
  destruct (exp p) as [e|]; [|done].
  specialize (Hexp e eq_refl).
  by destruct (Z.leb_spec e now); [lia|].
Qed.

Lemma ref_rejectsExpired : rejectsExpired RefJose.sign RefJose.jwtVerify.
Proof.
  intros key p now e Hexp Hle. unfold RefJose.jwtVerify.
  rewrite parse_sign. rewrite decide_True by done. rewrite Hexp.
  by destruct (Z.leb_spec e now); [|lia].
Qed.

Section Helpers.
Context (JWT_SECRET : option string)
        (sign : Alg → TokenPayload → string → string)
        (jwtVerify : string → string → Z → Js TokenPayload).

Lemma verifyToken_value token now :
  value (verifyToken JWT_SECRET jwtVerify token now) =
    match jwtVerify token (secret JWT_SECRET) now with
    | Return p => Some p
    | Throw _ => None
    end.
Proof.
  unfold verifyToken. cbn.
  by destruct (jwtVerify token (secret JWT_SECRET) now).
Qed.

Lemma getTokenFromRequest_absent request now :
  get request "authorization" = None →
  getTokenFromRequest JWT_SECRET jwtVerify request now =
    {| calls := []; value := None |}.
Proof. intros H. unfold getTokenFromRequest. by rewrite H. Qed.

Lemma getTokenFromRequest_other request now h :
  get request "authorization" = Some h →
  (∀ t, h ≠ "Bearer " +:+ t) →
  getTokenFromRequest JWT_SECRET jwtVerify request now =
    {| calls := []; value := None |}.
Proof.
  intros H Hno. unfold getTokenFromRequest. rewrite H.
  cbv [default from_option id].
  destruct (startsWith "Bearer " h) eqn:E.
  - apply startsWith_inv in E as [t ->]. by destruct (Hno t).
  - cbn [negb]. by rewrite orb_true_r.
Qed.

Lemma getTokenFromRequest_bearer request now t :
  get request "authorization" = Some ("Bearer " +:+ t) →
  getTokenFromRequest JWT_SECRET jwtVerify request now =
    verifyToken JWT_SECRET jwtVerify t now.
Proof.
  intros H. unfold getTokenFromRequest. rewrite H.
  cbv [default from_option id].
  by rewrite startsWith_app, substring_bearer.
Qed.

End Helpers.

(** The scenario of the specification, run on the reference instance: a
    token issued at t = 0 verifies at 86399 s and no longer at 86401 s. *)
Example token_scenario :
  let token := value (generateToken None RefJose.sign Scenario.admin 0) in
  value (verifyToken None RefJose.jwtVerify token 86399) =
    Some {| claims := Scenario.admin; iat := Some 0; exp := Some 86400 |} ∧
  value (verifyToken None RefJose.jwtVerify token 86401) = None ∧
  value (verifyToken (Some "another-secret") RefJose.jwtVerify token 86399) = None.
Proof. vm_compute. by repeat split. Qed.

Example lower_case_scheme_is_refused :
  getTokenFromRequest None RefJose.jwtVerify Scenario.basicAuth 0 =
    {| calls := []; value := None |}.
Proof. reflexivity. Qed.

Example bearer_token_is_verified token :
  calls (getTokenFromRequest None RefJose.jwtVerify (Scenario.bearer token) 0) =
    [CallJwtVerify token].
Proof.
  by rewrite (getTokenFromRequest_bearer None RefJose.jwtVerify
                (Scenario.bearer token) 0 token eq_refl).
Qed.

(** C5. Whatever [jwtVerify] throws for a token (malformed token, bad
    signature, expired token, or anything else), [verifyToken] returns
    [null] and throws nothing; the result is the same for any two
    failures, so the cause cannot be told from it. *)
Theorem verifyToken_failure_is_null JWT_SECRET
    (jwtVerify : string → string → Z → Js TokenPayload) token now e :
  jwtVerify token (secret JWT_SECRET) now = Throw e →
  value (verifyToken JWT_SECRET jwtVerify token now) = None ∧
  ∀ token' now' e',
    jwtVerify token' (secret JWT_SECRET) now' = Throw e' →
    value (verifyToken JWT_SECRET jwtVerify token' now') =
      value (verifyToken JWT_SECRET jwtVerify token now).
Proof.
  intros H. rewrite verifyToken_value, H. split; [done|].
  intros token' now' e' H'. by rewrite verifyToken_value, H'.
Qed.

Lemma verifyToken_failure_is_null_witness :
  value (verifyToken None RefJose.jwtVerify "not-a-token" 0) = None ∧
  ∀ token' now' e',
    RefJose.jwtVerify token' (secret None) now' = Throw e' →
    value (verifyToken None RefJose.jwtVerify token' now') =
      value (verifyToken None RefJose.jwtVerify "not-a-token" 0).
Proof.
  apply (verifyToken_failure_is_null None RefJose.jwtVerify "not-a-token" 0
           (JOSEError ERR_JWS_INVALID)).
  reflexivity.
Defined.

(** C6. When the [Authorization] header is absent, or its value does not
    start with ["Bearer "] (case-sensitive, one space), the result is
    [null] and [jwtVerify] is not called; when the value is ["Bearer "]
    followed by [t], the result is that of [verifyToken t], the seven
    characters of the prefix stripped. *)
Theorem getTokenFromRequest_requires_bearer JWT_SECRET
    (jwtVerify : string → string → Z → Js TokenPayload) request now :
  (get request "authorization" = None →
     getTokenFromRequest JWT_SECRET jwtVerify request now =
       {| calls := []; value := None |}) ∧
  (∀ h, get request "authorization" = Some h →
     (∀ t, h ≠ "Bearer " +:+ t) →
     getTokenFromRequest JWT_SECRET jwtVerify request now =
       {| calls := []; value := None |}) ∧
  (∀ t, get request "authorization" = Some ("Bearer " +:+ t) →
     String.length ("Bearer " +:+ t) = (7 + String.length t)%nat ∧
     getTokenFromRequest JWT_SECRET jwtVerify request now =
       verifyToken JWT_SECRET jwtVerify t now ∧
     calls (getTokenFromRequest JWT_SECRET jwtVerify request now) =
       [CallJwtVerify t]).
Proof.
  split; [|split].
  - apply getTokenFromRequest_absent.
  - apply getTokenFromRequest_other.
  - intros t H. split; [done|].
    by rewrite (getTokenFromRequest_bearer _ _ _ _ _ H).
Qed.

(** C7. [requireAuth] returns
    [{authorized: false, error: "Unauthorized - Invalid or missing token"}]
    exactly when [getTokenFromRequest] yields [null], and
    [{authorized: true, user}] with the claim otherwise. *)
Theorem requireAuth_result JWT_SECRET
    (jwtVerify : string → string → Z → Js TokenPayload) request now :
  let claim := value (getTokenFromRequest JWT_SECRET jwtVerify request now) in
  let result := value (requireAuth JWT_SECRET jwtVerify request now) in
  (claim = None ↔ authorized result = false) ∧
  (claim = None ↔
     result = {| authorized := false; user := None;
                 error := Some "Unauthorized - Invalid or missing token" |}) ∧
  (∀ u, claim = Some u ↔
     result = {| authorized := true; user := Some u; error := None |}).
Proof.
  unfold requireAuth. cbv [mbind logged_bind]. cbn [value].
  destruct (getTokenFromRequest JWT_SECRET jwtVerify request now) as [cs [u|]]; cbn.
  - split; [|split].
    + split; discriminate.
    + split; discriminate.
    + intros u'. split; congruence.
  - split; [|split].
    + done.
    + done.
    + intros u'. split; discriminate.
Qed.

(** C8. With a library that verifies what it signed until [exp] and
    rejects it from [exp] on: a token made by [generateToken] for the
    claim [body] at time [issued], verified at [now] before 24 hours have
    passed, gives a payload with the fields of [body], [iat = issued] and
    [exp = issued + 24h], where [iat <= now <= exp]; verified after [exp]
    it gives [null]. *)
Theorem token_round_trip JWT_SECRET
    (sign : Alg → TokenPayload → string → string)
    (jwtVerify : string → string → Z → Js TokenPayload) body issued now :
  verifiesSigned sign jwtVerify →
  rejectsExpired sign jwtVerify →
  let token := value (generateToken JWT_SECRET sign body issued) in
  let result := value (verifyToken JWT_SECRET jwtVerify token now) in
  (issued ≤ now < issued + 24 * 3600 →
     ∃ p, result = Some p ∧
          claims p = body ∧
          iat p = Some issued ∧
          exp p = Some (issued + 24 * 3600) ∧
          issued ≤ now ≤ issued + 24 * 3600) ∧
  (issued + 24 * 3600 < now → result = None).
Proof.
  intros Hverify Hexpired token result. subst result.
  rewrite verifyToken_value. subst token. cbn. split.
  - intros Hnow. rewrite Hverify.
    + eexists. split; [reflexivity|]. cbn. repeat split; lia.
    + cbn. intros e [= <-]. lia.
  - intros Hnow. by rewrite (Hexpired _ _ _ (issued + 24 * 3600)); [| |lia].
Qed.

Lemma token_round_trip_witness :
  let token := value (generateToken None RefJose.sign Scenario.admin 0) in
  let result := value (verifyToken None RefJose.jwtVerify token 86399) in
  (0 ≤ 86399 < 0 + 24 * 3600 →
     ∃ p, result = Some p ∧
          claims p = Scenario.admin ∧
          iat p = Some 0 ∧
          exp p = Some (0 + 24 * 3600) ∧
          0 ≤ 86399 ≤ 0 + 24 * 3600) ∧
  (0 + 24 * 3600 < 86399 → result = None).
Proof.
  apply (token_round_trip None RefJose.sign RefJose.jwtVerify Scenario.admin 0 86399).
  - exact ref_verifiesSigned.
  - exact ref_rejectsExpired.
Defined.

End AuthProps.

(** ** [sanitizeHtml] *)

Module ValidationProps.
Import Validation.

Ltac each_char c := destruct c as [[] [] [] [] [] [] [] []].

Lemma app_cons c (a b : string) : String c a +:+ b = String c (a +:+ b).
Proof. reflexivity. Qed.

Lemma append_assoc (a b c : string) : (a +:+ b) +:+ c = a +:+ (b +:+ c).
Proof. induction a as [|x a IH]; [done|]. by rewrite !app_cons, IH. Qed.

Lemma length_append (a b : string) :
  String.length (a +:+ b) = (String.length a + String.length b)%nat.
Proof. induction a as [|x a IH]; [done|]. rewrite app_cons. cbn. by rewrite IH. Qed.

Lemma occurs_append c (a b : string) :
  occurs c (a +:+ b) = occurs c a || occurs c b.
Proof.
  induction a as [|x a IH]; [done|]. rewrite app_cons. cbn [occurs].
  by rewrite IH, orb_assoc.
Qed.

Lemma replaceAll_append c by_ (a b : string) :
  replaceAll c by_ (a +:+ b) = replaceAll c by_ a +:+ replaceAll c by_ b.
Proof.
  induction a as [|x a IH]; [done|]. rewrite app_cons. cbn [replaceAll].
  destruct (Ascii.eqb x c).
  - by rewrite IH, append_assoc.
  - by rewrite app_cons, IH.
Qed.

Lemma sanitize_append (a b : string) :
  sanitizeHtml (a +:+ b) = sanitizeHtml a +:+ sanitizeHtml b.
Proof. unfold sanitizeHtml. by rewrite !replaceAll_append. Qed.

Lemma sanitize_char c : sanitizeHtml (String c "") = escapeChar c.
Proof. each_char c; reflexivity. Qed.

Lemma sanitize_escape s : sanitizeHtml s = escape s.
Proof.
  induction s as [|c r IH]; [done|].
  change (String c r) with (String c "" +:+ r).
  by rewrite sanitize_append, sanitize_char, IH.
Qed.

(** What one character becomes: itself, or an entity that starts with an
    ampersand and holds none of the other five characters. *)
Lemma escapeChar_plain c : special c = false → escapeChar c = String c "".
Proof. each_char c; (discriminate || reflexivity). Qed.

Lemma escapeChar_special c :
  special c = true → ∃ r, escapeChar c = String "&" r ∧ (3 ≤ String.length r)%nat.
Proof. each_char c; (discriminate || (intros _; eexists; split; [reflexivity|cbn; lia])). Qed.

Lemma escapeChar_safe c d :
  special d = true → d ≠ "&"%char → occurs d (escapeChar c) = false.
Proof.
  intros Hd Hamp.
  assert (d = "<" ∨ d = ">" ∨ d = "034" ∨ d = "'" ∨ d = "/")%char as Hcases.
  { revert Hd Hamp. each_char d; (discriminate || (intros _ H; try (by destruct H);
      auto 6)). }
  destruct Hcases as [->|[->|[->|[->| ->]]]]; each_char c; reflexivity.
Qed.

Lemma escapeChar_length c :
  (1 ≤ String.length (escapeChar c) ≤ 6)%nat.
Proof. each_char c; cbn; lia. Qed.

Lemma special_cases c :
  special c = true →
  (c = "&" ∨ c = "<" ∨ c = ">" ∨ c = "034" ∨ c = "'" ∨ c = "/")%char.
Proof. each_char c; (discriminate || (intros _; auto 7)). Qed.

Lemma hasSpecial_append (a b : string) :
  hasSpecial (a +:+ b) = hasSpecial a || hasSpecial b.
Proof.
  induction a as [|x a IH]; [done|]. rewrite app_cons. cbn [hasSpecial].
  by rewrite IH, orb_assoc.
Qed.

Lemma escape_length s :
  (String.length s ≤ String.length (escape s) ≤ 6 * String.length s)%nat ∧
  (hasSpecial s = true → String.length s < String.length (escape s))%nat.
Proof.
  induction s as [|c r [IH1 IH2]]; [cbn; split; [lia|discriminate]|].
  cbn [escape hasSpecial String.length]. rewrite length_append.
  pose proof (escapeChar_length c) as Hc. split; [lia|].
  destruct (special c) eqn:E; cbn [orb].
  - destruct (escapeChar_special c E) as (r' & -> & Hr'). cbn [String.length]. lia.
  - intros H. specialize (IH2 H). lia.
Qed.

Lemma escape_clean s : hasSpecial s = false → escape s = s.
Proof.
  induction s as [|c r IH]; [done|]. cbn [escape hasSpecial].
  intros [Hc Hr]%orb_false_iff. by rewrite (escapeChar_plain c Hc), IH.
Qed.

Lemma escape_keeps_special s : hasSpecial s = true → hasSpecial (escape s) = true.
Proof.
  induction s as [|c r IH]; [done|]. cbn [escape hasSpecial].
  rewrite hasSpecial_append. destruct (special c) eqn:E; cbn [orb].
  - intros _. by destruct (escapeChar_special c E) as (r' & -> & _).
  - intros H. rewrite (IH H). apply orb_true_r.
Qed.

Lemma escape_inj a : ∀ b, escape a = escape b → a = b.
Proof.
  induction a as [|x a IH]; intros [|y b] H; [done| | |].
  - apply (f_equal String.length) in H. cbn [escape] in H.
    rewrite length_append in H. pose proof (escapeChar_length y). cbn in H. lia.
  - apply (f_equal String.length) in H. cbn [escape] in H.
    rewrite length_append in H. pose proof (escapeChar_length x). cbn in H. lia.
  - cbn [escape] in H.
    destruct (special x) eqn:Ex, (special y) eqn:Ey.
    + apply special_cases in Ex, Ey.
      destruct Ex as [->|[->|[->|[->|[->| ->]]]]];
        destruct Ey as [->|[->|[->|[->|[->| ->]]]]];
        cbv [escapeChar Ascii.eqb Bool.eqb String.append] in H;
        first [discriminate H | injection H as H; by rewrite (IH b H)].
    + destruct (escapeChar_special x Ex) as (r & Hx & _).
      rewrite Hx, (escapeChar_plain y Ey), !app_cons in H.
      injection H as <- _. discriminate Ey.
    + destruct (escapeChar_special y Ey) as (r & Hy & _).
      rewrite Hy, (escapeChar_plain x Ex), !app_cons in H.
      injection H as -> _. discriminate Ex.
    + rewrite (escapeChar_plain x Ex), (escapeChar_plain y Ey), !app_cons in H.
      injection H as -> H. by rewrite (IH b H).
Qed.

(** X1. The six replacements of [sanitizeHtml], applied one after the
    other to the whole string, amount to one pass that writes each
    character as its entity: no replacement touches what an earlier one
    wrote. *)
Theorem sanitizeHtml_is_one_pass s : sanitizeHtml s = escape s.
Proof. apply sanitize_escape. Qed.

(** X2. The result of [sanitizeHtml] holds none of the characters
    [<], [>], the double quote, the single quote and [/]. *)
Theorem sanitizeHtml_output_is_safe s :
  occurs "<" (sanitizeHtml s) = false ∧
  occurs ">" (sanitizeHtml s) = false ∧
  occurs "034" (sanitizeHtml s) = false ∧
  occurs "'" (sanitizeHtml s) = false ∧
  occurs "/" (sanitizeHtml s) = false.
Proof.
  rewrite sanitize_escape.
  induction s as [|c r (IH1 & IH2 & IH3 & IH4 & IH5)]; [done|].
  cbn [escape]. rewrite !occurs_append, IH1, IH2, IH3, IH4, IH5, !orb_false_r.
  repeat split; by apply escapeChar_safe.
Qed.

(** X3. [sanitizeHtml] loses nothing: two strings with the same result
    are the same string. *)
Theorem sanitizeHtml_injective a b :
  sanitizeHtml a = sanitizeHtml b ↔ a = b.
Proof.
  split; [|by intros ->]. rewrite !sanitize_escape. apply escape_inj.
Qed.

(** X4. [sanitizeHtml] leaves a string unchanged exactly when none of the
    six characters occurs in it, and applying it twice gives the result of
    applying it once exactly for those strings: any other string is escaped
    again. *)
Theorem sanitizeHtml_idempotent_iff_clean s :
  (sanitizeHtml s = s ↔ hasSpecial s = false) ∧
  (sanitizeHtml (sanitizeHtml s) = sanitizeHtml s ↔ hasSpecial s = false).
Proof.
  assert (∀ t, escape t = t ↔ hasSpecial t = false) as Hfix.
  { intros t. split; [|apply escape_clean].
    intros H. destruct (hasSpecial t) eqn:E; [|done].
    apply (proj2 (escape_length t)) in E. rewrite H in E. lia. }
  rewrite !sanitize_escape. split; [apply Hfix|].
  rewrite Hfix. split.
  - intros H. destruct (hasSpecial s) eqn:E; [|done].
    by rewrite (escape_keeps_special s E) in H.
  - intros H. by rewrite (escape_clean s H).
Qed.

(** X5. The result of [sanitizeHtml] is at least as long as its argument
    and at most six times as long. *)
Theorem sanitizeHtml_length s :
  (String.length s ≤ String.length (sanitizeHtml s) ≤ 6 * String.length s)%nat.
Proof. rewrite sanitize_escape. apply escape_length. Qed.

End ValidationProps.

(** ** Runs of the rate limiter *)

Module RunsProps.
Import RateLimit Runs.
Import RateLimitProps.

Lemma serve_allowedCount request config key ts :
  getClientIdentifier request = Return key →
  ∀ store c R,
    store !! key = Some {| count := c; resetAt := R |} →
    Forall (λ t, t ≤ R) ts →
    ∃ rs store',
      serve store request config ts = Return (rs, store') ∧
      allowedCount rs =
        Z.max 0 (Z.min (Z.of_nat (length ts)) (maxRequests config - c)).
Proof.
  intros Hkey. induction ts as [|t rest IH]; intros store c R E Hts.
  - exists [], store. split; [done|]. cbn. lia.
  - inversion Hts as [|? ? Ht Hrest]; subst.
    destruct (checkRateLimit_count store request config t key c R Hkey E)
      as (r & Hr & _ & Hle & Hgt); [lia|].
    destruct (IH (<[key := {| count := c + 1; resetAt := R |}]> store) (c + 1) R)
      as (rs & store' & Hrs & Hcount); [apply lookup_insert_eq | done |].
    exists (r :: rs), store'. cbn [serve]. rewrite Hr. js_step.
    rewrite Hrs. js_step. split; [done|].
    cbn [allowedCount length]. rewrite Hcount.
    destruct (Z.le_gt_cases (c + 1) (maxRequests config)) as [H|H].
    + destruct (Hle H) as (-> & _). lia.
    + destruct Hgt as (-> & _); lia.
Qed.

(** X6. For a client key that is not an inherited name, and a window in
    which every call for the key is made under one and the same
    configuration: of the requests from the one that opens the window
    until its reset time, [min n (max 1 maxRequests)] are allowed, n being
    their number. Calls under another configuration count against the same
    entry and are not covered. *)
Theorem allowed_requests_per_window store request config key t1 ts :
  getClientIdentifier request = Return key →
  inherited key = false →
  noLiveEntry store key t1 →
  Forall (λ t, t ≤ t1 + windowSeconds config * 1000) ts →
  ∃ rs store',
    serve store request config (t1 :: ts) = Return (rs, store') ∧
    allowedCount rs =
      Z.min (Z.of_nat (length (t1 :: ts))) (Z.max 1 (maxRequests config)).
Proof.
  intros Hkey Hplain Hfresh Hts.
  destruct (serve_allowedCount request config key ts Hkey
              (<[key := {| count := 1;
                           resetAt := t1 + windowSeconds config * 1000 |}]> store)
              1 (t1 + windowSeconds config * 1000))
    as (rs & store' & Hrs & Hcount); [apply lookup_insert_eq | done |].
  eexists _, store'. cbn [serve].
  rewrite (checkRateLimit_fresh store request config t1 key Hkey Hfresh);
    [|done].
  js_step. rewrite Hrs. js_step. split; [reflexivity|].
  cbn [allowedCount allowed length]. rewrite Hcount. lia.
Qed.

Lemma allowed_requests_per_window_witness :
  ∃ rs store',
    serve ∅ Scenario.client RATE_LIMITS.contact (0 :: [1; 2; 3; 3600000]) =
      Return (rs, store') ∧
    allowedCount rs =
      Z.min (Z.of_nat (length (0 :: [1; 2; 3; 3600000]))) (Z.max 1 3).
Proof.
  apply (allowed_requests_per_window ∅ Scenario.client RATE_LIMITS.contact
           "1.2.3.4" 0 [1; 2; 3; 3600000]).
  - reflexivity.
  - reflexivity.
  - exact I.
  - cbn. repeat constructor; lia.
Defined.

(** X7. Denied requests do not prolong the block: whatever a client sends
    while its entry is live, every result carries the entry's reset time
    unchanged, and the first request after that time is allowed and opens a
    new window with count 1. *)
Theorem denials_do_not_extend_window store request config key e ts later :
  getClientIdentifier request = Return key →
  store !! key = Some e →
  Forall (λ t, t ≤ resetAt e) ts →
  resetAt e < later →
  ∃ rs store1 r store2,
    serve store request config ts = Return (rs, store1) ∧
    (∀ (i : nat) r', rs !! i = Some r' → result_resetAt r' = Some (resetAt e)) ∧
    checkRateLimit store1 request config later = Return (r, store2) ∧
    allowed r = true ∧
    store2 !! key =
      Some {| count := 1; resetAt := later + windowSeconds config * 1000 |}.
Proof.
  intros Hkey E Hts Hlater. destruct e as [c R]. cbn [resetAt] in *.
  destruct (serve_live request config key ts Hkey store c R E Hts)
    as (rs & store1 & Hrs & Hstore1 & _ & Hall).
  assert (noLiveEntry store1 key later) as Hfresh
    by (unfold noLiveEntry; by rewrite Hstore1).
  exists rs, store1. do 2 eexists. split; [done|]. split.
  - intros i r' Hi. by destruct (Hall i r' Hi) as [? _].
  - rewrite (checkRateLimit_fresh store1 request config later key Hkey Hfresh);
      [|by rewrite Hstore1].
    split; [reflexivity|]. split; [done|]. apply lookup_insert_eq.
Qed.

Lemma denials_do_not_extend_window_witness :
  ∃ rs store1 r store2,
    serve Scenario.liveStore Scenario.client RATE_LIMITS.contact [10; 20; 300000] =
      Return (rs, store1) ∧
    (∀ (i : nat) r', rs !! i = Some r' → result_resetAt r' = Some 300000) ∧
    checkRateLimit store1 Scenario.client RATE_LIMITS.contact 300001 =
      Return (r, store2) ∧
    allowed r = true ∧
    store2 !! "1.2.3.4" = Some {| count := 1; resetAt := 300001 + 3600 * 1000 |}.
Proof.
  apply (denials_do_not_extend_window Scenario.liveStore Scenario.client
           RATE_LIMITS.contact "1.2.3.4" {| count := 2; resetAt := 300000 |}
           [10; 20; 300000] 300001).
  - reflexivity.
  - reflexivity.
  - cbn. repeat constructor; lia.
  - cbn. lia.
Defined.

(** X8. Every entry of a store the process can reach has a count of at
    least 1: [checkRateLimit] writes 1 or adds 1, and the sweep only
    removes entries. *)
Theorem reachable_counts_positive store :
  reachable store →
  ∀ key e, store !! key = Some e → 1 ≤ count e.
Proof.
  induction 1 as [|store request config now r store' _ IH Hcheck|store now _ IH];
    intros key e E.
  - by rewrite lookup_empty in E.
  - destruct (getClientIdentifier_total request) as [k Hk].
    assert (store' = store ∨ ∃ e', store' = <[k := e']> store ∧ 1 ≤ count e')
      as [->|(e' & -> & He')].
    { destruct (lookup_cases store now k) as [[Hfresh Hown]|[(e0 & E0 & Hlive)|[E0 Hin]]].
      - rewrite (checkRateLimit_fresh store request config now k Hk Hfresh Hown)
          in Hcheck.
        injection Hcheck as _ <-. right. by eexists.
      - rewrite (checkRateLimit_live store request config now k Hk e0 E0 Hlive)
          in Hcheck.
        injection Hcheck as _ <-. right. eexists. split; [done|].
        cbn. specialize (IH k e0 E0). lia.
      - rewrite (checkRateLimit_inherited store request config now k Hk E0 Hin)
          in Hcheck.
        injection Hcheck as _ <-. by left. }
    { by apply (IH key). }
    destruct (decide (k = key)) as [->|Hne].
    + rewrite lookup_insert_eq in E. by injection E as <-.
    + rewrite lookup_insert_ne in E by done. by apply (IH key).
  - rewrite sweep_lookup in E. destruct (store !! key) as [e0|] eqn:E0; [|done].
    destruct (decide (resetAt e0 < now)); [done|]. injection E as <-.
    by apply (IH key).
Qed.

Lemma reachable_counts_positive_witness :
  1 ≤ count {| count := 1; resetAt := 300000 |}.
Proof.
  apply (reachable_counts_positive
           (<["1.2.3.4" := {| count := 1; resetAt := 300000 |}]> ∅)
           (reach_check ∅ Scenario.client RATE_LIMITS.login 0
              {| allowed := true; remaining := 4;
                 result_resetAt := Some 300000; error := None |}
              (<["1.2.3.4" := {| count := 1; resetAt := 300000 |}]> ∅)
              reach_start eq_refl)
           "1.2.3.4").
  reflexivity.
Defined.

(** X9. Two sweeps amount to the later one: sweeping at [t1] and then at
    [t2] leaves the store that one sweep at the larger of the two times
    leaves; in particular a repeated sweep changes nothing. *)
Theorem sweep_twice store t1 t2 :
  sweep (sweep store t1) t2 = sweep store (Z.max t1 t2).
Proof.
  apply map_eq. intros key. rewrite !sweep_lookup.
  destruct (store !! key) as [e|]; [|done].
  destruct (decide (resetAt e < t1)), (decide (resetAt e < Z.max t1 t2));
    try destruct (decide (resetAt e < t2)); try done; lia.
Qed.

Lemma sweep_preserves_decision_witness :
  ∃ r store1 store2,
    checkRateLimit Scenario.staleStore Scenario.client RATE_LIMITS.login 10 =
      Return (r, store1) ∧
    checkRateLimit (sweep Scenario.staleStore 7) Scenario.client RATE_LIMITS.login 10 =
      Return (r, store2).
Proof.
  apply (sweep_preserves_decision Scenario.staleStore Scenario.client
           RATE_LIMITS.login 7 10).
  - intros key e H. unfold Scenario.staleStore in H.
    apply lookup_singleton_Some in H as [<- _]. reflexivity.
  - lia.
Defined.

(** Every store the process reaches has no own entry under an inherited
    name: for such a name the first branch of [checkRateLimit] is never
    taken. *)
Lemma reachable_plainKeys store : reachable store → plainKeys store.
Proof.
  induction 1 as [|store request config now r store' _ IH Hcheck|store now _ IH];
    intros key e E.
  - by rewrite lookup_empty in E.
  - destruct (getClientIdentifier_total request) as [k Hk].
    destruct (lookup_cases store now k) as [[Hfresh Hown]|[(e0 & E0 & Hlive)|[E0 Hin]]].
    + rewrite (checkRateLimit_fresh store request config now k Hk Hfresh Hown)
        in Hcheck.
      injection Hcheck as _ <-.
      destruct (decide (k = key)) as [->|Hne].
      * destruct (store !! key) as [e1|] eqn:E1; [by apply (IH key e1)|by apply Hown].
      * rewrite lookup_insert_ne in E by done. by apply (IH key e).
    + rewrite (checkRateLimit_live store request config now k Hk e0 E0 Hlive)
        in Hcheck.
      injection Hcheck as _ <-.
      destruct (decide (k = key)) as [->|Hne].
      * by apply (IH key e0).
      * rewrite lookup_insert_ne in E by done. by apply (IH key e).
    + rewrite (checkRateLimit_inherited store request config now k Hk E0 Hin)
        in Hcheck.
      injection Hcheck as _ <-. by apply (IH key e).
  - rewrite sweep_lookup in E. destruct (store !! key) as [e0|] eqn:E0; [|done].
    destruct (decide (resetAt e0 < now)); [done|]. injection E as <-.
    by apply (IH key e0).
Qed.

End RunsProps.

(** ** Tokens from issuance to the guard *)

Module GuardProps.
Import Auth AuthProps.

Lemma requireAuth_bearer JWT_SECRET
    (jwtVerify : string → string → Z → Js TokenPayload) token now :
  value (requireAuth JWT_SECRET jwtVerify (Scenario.bearer token) now) =
    match jwtVerify token (secret JWT_SECRET) now with
    | Return p => {| authorized := true; user := Some p; error := None |}
    | Throw _ =>
        {| authorized := false; user := None;
           error := Some "Unauthorized - Invalid or missing token" |}
    end.
Proof.
  unfold requireAuth.
  rewrite (getTokenFromRequest_bearer JWT_SECRET jwtVerify
             (Scenario.bearer token) now token eq_refl).
  cbv [mbind logged_bind]. cbn [value].
  pose proof (verifyToken_value JWT_SECRET jwtVerify token now) as Hv.
  destruct (verifyToken JWT_SECRET jwtVerify token now) as [cs v].
  cbn [value] in Hv |- *. rewrite Hv.
  by destruct (jwtVerify token (secret JWT_SECRET) now).
Qed.

(** X11. From issuance to the guard: a request that carries, as
    [Bearer] token, what [generateToken] made for a claim at time [issued]
    is authorized by [requireAuth] with that claim at every clock reading
    before [issued + 24h], and refused with the fixed message from
    [issued + 24h] on, that second included. *)
Theorem issued_token_passes_guard_until_expiry JWT_SECRET
    (sign : Alg → TokenPayload → string → string)
    (jwtVerify : string → string → Z → Js TokenPayload) body issued now :
  verifiesSigned sign jwtVerify →
  rejectsExpired sign jwtVerify →
  let token := value (generateToken JWT_SECRET sign body issued) in
  let result := value (requireAuth JWT_SECRET jwtVerify (Scenario.bearer token) now) in
  (now < issued + 24 * 3600 →
     result = {| authorized := true;
                 user := Some {| claims := body; iat := Some issued;
                                 exp := Some (issued + 24 * 3600) |};
                 error := None |}) ∧
  (issued + 24 * 3600 ≤ now →
     result = {| authorized := false; user := None;
                 error := Some "Unauthorized - Invalid or missing token" |}).
Proof.
  intros Hverify Hexpired token result. subst result token.
  rewrite requireAuth_bearer. cbn [generateToken value mbind logged_bind call mret logged_ret].
  cbn. split.
  - intros Hnow. rewrite Hverify; [done|]. cbn. intros e [= <-]. lia.
  - intros Hnow. by rewrite (Hexpired _ _ _ (issued + 24 * 3600)).
Qed.

Lemma issued_token_passes_guard_until_expiry_witness :
  let token := value (generateToken None RefJose.sign Scenario.admin 0) in
  let result :=
    value (requireAuth None RefJose.jwtVerify (Scenario.bearer token) 86400) in
  (86400 < 0 + 24 * 3600 →
     result = {| authorized := true;
                 user := Some {| claims := Scenario.admin; iat := Some 0;
                                 exp := Some (0 + 24 * 3600) |};
                 error := None |}) ∧
  (0 + 24 * 3600 ≤ 86400 →
     result = {| authorized := false; user := None;
                 error := Some "Unauthorized - Invalid or missing token" |}).
Proof.
  apply (issued_token_passes_guard_until_expiry None RefJose.sign RefJose.jwtVerify
           Scenario.admin 0 86400).
  - exact ref_verifiesSigned.
  - exact ref_rejectsExpired.
Defined.

(** X12. Without a [JWT_SECRET] in the environment, or with an empty one,
    the key is the constant written in the source: [requireAuth] then
    authorizes any unexpired payload signed with that constant. *)
Theorem default_secret_is_accepted JWT_SECRET
    (sign : Alg → TokenPayload → string → string)
    (jwtVerify : string → string → Z → Js TokenPayload) p now :
  verifiesSigned sign jwtVerify →
  RateLimit.blank JWT_SECRET →
  (∀ e, exp p = Some e → now < e) →
  value (requireAuth JWT_SECRET jwtVerify
           (Scenario.bearer (sign HS256 p "your-secret-key-change-in-production")) now) =
    {| authorized := true; user := Some p; error := None |}.
Proof.
  intros Hverify Hblank Hexp. rewrite requireAuth_bearer.
  assert (secret JWT_SECRET = "your-secret-key-change-in-production") as ->
    by (by destruct Hblank as [-> | ->]).
  by rewrite Hverify.
Qed.

Lemma default_secret_is_accepted_witness :
  value (requireAuth (Some "") RefJose.jwtVerify
           (Scenario.bearer
              (RefJose.sign HS256
                 {| claims := Scenario.admin; iat := None; exp := None |}
                 "your-secret-key-change-in-production")) 0) =
    {| authorized := true;
       user := Some {| claims := Scenario.admin; iat := None; exp := None |};
       error := None |}.
Proof.
  apply (default_secret_is_accepted (Some "") RefJose.sign RefJose.jwtVerify
           {| claims := Scenario.admin; iat := None; exp := None |} 0).
  - exact ref_verifiesSigned.
  - by right.
  - discriminate.
Defined.

End GuardProps.

(** ** [src/lib/authClient.ts] *)

Module AuthClientProps.
Import Effects AuthClient.

Lemma stripEnd_token t : isToken t = true → stripEnd t = t.
Proof.
  induction t as [|c r IH]; [done|]. cbn [isToken stripEnd].
  intros [[Hc _]%andb_true_iff Hr]%andb_true_iff.
  rewrite (IH Hr). destruct r; [|done].
  by destruct (isHttpWhitespace c).
Qed.

Lemma stripEnd_append (p t : string) :
  t ≠ "" → stripEnd t = t → stripEnd (p +:+ t) = p +:+ t.
Proof.
  intros Ht Hs. induction p as [|c p IH]; [done|].
  change (String c p +:+ t) with (String c (p +:+ t)).
  cbn [stripEnd]. rewrite IH.
  destruct (p +:+ t) eqn:E; [|done].
  destruct p; [by destruct Ht|discriminate E].
Qed.

Lemma isHeaderValue_token t : isToken t = true → isHeaderValue t = true.
Proof.
  induction t as [|c r IH]; [done|]. cbn [isToken isHeaderValue].
  intros [[Hws Hnul]%andb_true_iff Hr]%andb_true_iff.
  rewrite (IH Hr), andb_true_r. unfold isHttpWhitespace in Hws.
  destruct (nat_of_ascii c =? 0)%nat; [done|].
  destruct (nat_of_ascii c =? 10)%nat; [by rewrite !orb_true_r in Hws|].
  destruct (nat_of_ascii c =? 13)%nat; [by rewrite !orb_true_r in Hws|].
  done.
Qed.

Lemma Headers_set_bearer h t :
  t ≠ "" → isToken t = true →
  Headers_set h "Authorization" ("Bearer " +:+ t) =
    Done (<["authorization" := "Bearer " +:+ t]> h).
Proof.
  intros Ht Htok. unfold Headers_set, normalize.
  change (stripStart ("Bearer " +:+ t)) with ("Bearer " +:+ t).
  rewrite (stripEnd_append "Bearer " t Ht (stripEnd_token t Htok)).
  assert (isHeaderValue ("Bearer " +:+ t) = true) as ->; [|done].
  cbv [String.append]. cbn. by apply isHeaderValue_token.
Qed.

Section Runs.
Context {Rest Response : Type}.
Variable status : Response → Z.
Variable fetch : string → RequestInit Rest → Outcome Response.

Lemma authenticatedFetch_token window url (options : RequestInit Rest) t :
  getAuthToken window = Some t → t ≠ "" → isToken t = true →
  authenticatedFetch status fetch window url options =
    let init := {| init_headers :=
                     <["authorization" := "Bearer " +:+ t]> (init_headers options);
                   rest := rest options |} in
    match fetch url init with
    | Raise e =>
        {| fetched := [(url, init)]; outcome := Raise e; browser := window |}
    | Done response =>
        if status response =? 401 then
          {| fetched := [(url, init)];
             outcome := Raise (Error "Session expired");
             browser := logout window |}
        else
          {| fetched := [(url, init)]; outcome := Done response; browser := window |}
    end.
Proof.
  intros Htoken Ht Htok. unfold authenticatedFetch. rewrite Htoken.
  destruct t as [|c t]; [done|]. cbn [truthy negb].
  cbv [default from_option id].
  by rewrite (Headers_set_bearer _ (String c t) Ht Htok).
Qed.

End Runs.

Lemma getAuthToken_logout window : getAuthToken (logout window) = None.
Proof.
  destruct window as [b|]; [|done]. cbn.
  rewrite lookup_delete_ne by done. apply lookup_delete_eq.
Qed.

(** X13. After [logout] there is no token and [isAuthenticated] is false;
    in a browser the page is the login page, both session keys are gone and
    every other key of the local storage is as before; on the server
    [logout] does nothing. *)
Theorem logout_clears_the_session window :
  getAuthToken (logout window) = None ∧
  isAuthenticated (logout window) = false ∧
  (∀ b, window = Some b →
     ∃ b', logout window = Some b' ∧
           href b' = "/admin/login" ∧
           localStorage b' !! "admin_user" = None ∧
           ∀ k, k ≠ "admin_token" → k ≠ "admin_user" →
                localStorage b' !! k = localStorage b !! k) ∧
  (window = None → logout window = None).
Proof.
  split; [apply getAuthToken_logout|].
  split; [unfold isAuthenticated; by rewrite getAuthToken_logout|].
  split; [|by intros ->].
  intros b ->. eexists. split; [reflexivity|]. cbn.
  split; [done|]. split; [apply lookup_delete_eq|].
  intros k H1 H2. by rewrite !lookup_delete_ne.
Qed.

(** X14. Without a token (none stored, an empty one, or no browser)
    [authenticatedFetch] sends nothing: it logs out, which leaves the
    client unauthenticated, and rejects with "Not authenticated", whatever
    [fetch] would have answered. *)
Theorem no_token_no_request {Rest Response : Type} (status : Response → Z)
    (fetch : string → RequestInit Rest → Outcome Response)
    window url (options : RequestInit Rest) :
  isAuthenticated window = false →
  authenticatedFetch status fetch window url options =
    {| fetched := [];
       outcome := Raise (Error "Not authenticated");
       browser := logout window |} ∧
  isAuthenticated (logout window) = false.
Proof.
  unfold isAuthenticated, authenticatedFetch. intros ->.
  split; [done|]. by rewrite getAuthToken_logout.
Qed.

Lemma no_token_no_request_witness :
  authenticatedFetch (λ code : Z, code) (Cases.answer 200) Cases.signedOut
      "/api/education" Cases.jsonOptions =
    {| fetched := [];
       outcome := Raise (Error "Not authenticated");
       browser := logout Cases.signedOut |} ∧
  isAuthenticated (logout Cases.signedOut) = false.
Proof.
  apply (no_token_no_request (λ code : Z, code) (Cases.answer 200) Cases.signedOut
           "/api/education" Cases.jsonOptions).
  reflexivity.
Defined.

(** X15. With a stored token [t] (not empty, no white space or NUL in it)
    [authenticatedFetch] hands exactly one request to [fetch]; its
    [Authorization] header is ["Bearer " + t], replacing any the caller
    gave, every other header and option is the caller's; and the server's
    [getTokenFromRequest] on a request with these headers verifies exactly
    [t]. *)
Theorem authenticatedFetch_sends_the_token {Rest Response : Type}
    (status : Response → Z)
    (fetch : string → RequestInit Rest → Outcome Response)
    window url (options : RequestInit Rest) t :
  getAuthToken window = Some t →
  t ≠ "" →
  isToken t = true →
  ∃ init,
    fetched (authenticatedFetch status fetch window url options) = [(url, init)] ∧
    init_headers init !! "authorization" = Some ("Bearer " +:+ t) ∧
    (∀ name, name ≠ "authorization" →
       init_headers init !! name = init_headers options !! name) ∧
    rest init = rest options ∧
    ∀ JWT_SECRET jwtVerify now,
      Auth.getTokenFromRequest JWT_SECRET jwtVerify
        {| headers := init_headers init |} now =
      Auth.verifyToken JWT_SECRET jwtVerify t now.
Proof.
  intros Htoken Ht Htok.
  rewrite (authenticatedFetch_token status fetch window url options t Htoken Ht Htok).
  cbv zeta. eexists. split.
  - destruct (fetch url _) as [r|e]; [destruct (status r =? 401)|]; reflexivity.
  - cbn [init_headers rest]. split; [apply lookup_insert_eq|]. split.
    + intros name Hne. by apply lookup_insert_ne.
    + split; [done|]. intros JWT_SECRET jwtVerify now.
      apply AuthProps.getTokenFromRequest_bearer. apply lookup_insert_eq.
Qed.

Lemma authenticatedFetch_sends_the_token_witness :
  ∃ init,
    fetched (authenticatedFetch (λ code : Z, code) (Cases.answer 200)
               Cases.signedIn "/api/education" Cases.jsonOptions) =
      [("/api/education", init)] ∧
    init_headers init !! "authorization" = Some ("Bearer " +:+ "abc.def.ghi") ∧
    (∀ name, name ≠ "authorization" →
       init_headers init !! name = init_headers Cases.jsonOptions !! name) ∧
    rest init = rest Cases.jsonOptions ∧
    ∀ JWT_SECRET jwtVerify now,
      Auth.getTokenFromRequest JWT_SECRET jwtVerify
        {| headers := init_headers init |} now =
      Auth.verifyToken JWT_SECRET jwtVerify "abc.def.ghi" now.
Proof.
  apply (authenticatedFetch_sends_the_token (λ code : Z, code) (Cases.answer 200)
           Cases.signedIn "/api/education" Cases.jsonOptions "abc.def.ghi").
  - reflexivity.
  - discriminate.
  - reflexivity.
Defined.

(** X16. Once the request is sent, only a 401 ends the session: on status
    401 the helper logs out, after which [isAuthenticated] is false, and
    rejects with "Session expired"; on any other status it resolves with
    the response, and when [fetch] rejects it rejects with the same reason,
    in both cases leaving the browser state, token included, untouched. *)
Theorem only_401_ends_the_session {Rest Response : Type}
    (status : Response → Z)
    (fetch : string → RequestInit Rest → Outcome Response)
    window url (options : RequestInit Rest) t :
  getAuthToken window = Some t →
  t ≠ "" →
  isToken t = true →
  let run := authenticatedFetch status fetch window url options in
  ∃ init,
    fetched run = [(url, init)] ∧
    (∀ response, fetch url init = Done response → status response = 401 →
       outcome run = Raise (Error "Session expired") ∧
       browser run = logout window ∧
       isAuthenticated (browser run) = false) ∧
    (∀ response, fetch url init = Done response → status response ≠ 401 →
       outcome run = Done response ∧ browser run = window) ∧
    (∀ e, fetch url init = Raise e →
       outcome run = Raise e ∧ browser run = window).
Proof.
  intros Htoken Ht Htok run. subst run.
  rewrite (authenticatedFetch_token status fetch window url options t Htoken Ht Htok).
  cbv zeta. eexists. split.
  - destruct (fetch url _) as [r|e]; [destruct (status r =? 401)|]; reflexivity.
  - split; [|split].
    + intros response -> Hs. rewrite Hs. cbn.
      split; [done|]. split; [done|].
      unfold isAuthenticated. by rewrite getAuthToken_logout.
    + intros response -> Hs.
      by assert ((status response =? 401) = false) as -> by (by apply Z.eqb_neq).
    + by intros e ->.
Qed.

Lemma only_401_ends_the_session_witness :
  let run := authenticatedFetch (λ code : Z, code) (Cases.answer 401)
               Cases.signedIn "/api/education" Cases.jsonOptions in
  ∃ init,
    fetched run = [("/api/education", init)] ∧
    (∀ response, Cases.answer 401 "/api/education" init = Done response →
       response = 401 →
       outcome run = Raise (Error "Session expired") ∧
       browser run = logout Cases.signedIn ∧
       isAuthenticated (browser run) = false) ∧
    (∀ response, Cases.answer 401 "/api/education" init = Done response →
       response ≠ 401 →
       outcome run = Done response ∧ browser run = Cases.signedIn) ∧
    (∀ e, Cases.answer 401 "/api/education" init = Raise e →
       outcome run = Raise e ∧ browser run = Cases.signedIn).
Proof.
  apply (only_401_ends_the_session (λ code : Z, code) (Cases.answer 401)
           Cases.signedIn "/api/education" Cases.jsonOptions "abc.def.ghi").
  - reflexivity.
  - discriminate.
  - reflexivity.
Defined.

End AuthClientProps.

(** ** Route handlers *)

Module RouteProps.
Import Effects RateLimit Http.
Import RateLimitProps.

Lemma checkRateLimit_shape store request config now :
  ∃ r store',
    checkRateLimit store request config now = Return (r, store') ∧
    ((allowed r = true ∧ error r = None) ∨
     (allowed r = false ∧ remaining r = 0 ∧
      error r = Some (or_else (message config) defaultMessage))).
Proof.
  destruct (getClientIdentifier_total request) as [key Hkey].
  destruct (lookup_cases store now key) as [[Hfresh Hown]|[(e & E & Hlive)|[E Hin]]].
  - rewrite (checkRateLimit_fresh store request config now key Hkey Hfresh Hown).
    do 2 eexists. split; [reflexivity|]. by left.
  - rewrite (checkRateLimit_live store request config now key Hkey e E Hlive).
    do 2 eexists. split; [reflexivity|].
    destruct (count e + 1 <=? maxRequests config); [by left|by right].
  - rewrite (checkRateLimit_inherited store request config now key Hkey E Hin).
    do 2 eexists. split; [reflexivity|]. by right.
Qed.

Lemma requireAuth_shape JWT_SECRET jwtVerify request clock :
  let result := Auth.value (Auth.requireAuth JWT_SECRET jwtVerify request clock) in
  (Auth.authorized result = true ∧ Auth.error result = None) ∨
  (Auth.authorized result = false ∧
   Auth.error result = Some "Unauthorized - Invalid or missing token").
Proof.
  unfold Auth.requireAuth. cbv [mbind Auth.logged_bind]. cbn [Auth.value].
  destruct (Auth.getTokenFromRequest JWT_SECRET jwtVerify request clock)
    as [cs [u|]]; cbn; [by left|by right].
Qed.

Section Login.
Import LoginRoute.
Context {Body : Type}.
Variable JWT_SECRET : option string.
Variable sign : Auth.Alg → Auth.TokenPayload → string → string.
Variable loginSchema_parse : Body → Outcome Credentials.
Variable findOne : string → Outcome (option Admin).
Variable compare : string → string → Outcome bool.

Lemma POST_allowed store request body now issued r store1 :
  checkRateLimit store request RATE_LIMITS.login now = Return (r, store1) →
  allowed r = true →
  ∀ b credentials,
    body = Done b →
    loginSchema_parse b = Done credentials →
    POST JWT_SECRET sign loginSchema_parse findOne compare store request body now issued =
      (try_
         (admin ← findOne (username credentials);
          match admin with
          | None => mret invalidCredentials
          | Some a =>
              isValidPassword ← compare (password credentials) (admin_password a);
              if negb isValidPassword then mret invalidCredentials
              else
                mret {| status := 200;
                        json :=
                          {| success := true; error := None; details := None;
                             token :=
                               Some (Auth.value
                                       (Auth.generateToken JWT_SECRET sign
                                          {| Auth.userId := _id a;
                                             Auth.username := admin_username a;
                                             Auth.email := admin_email a |} issued));
                             user := Some {| user_username := admin_username a;
                                             user_email := admin_email a |} |};
                        headers := [] |}
          end)
         loginFailed,
       store1).
Proof.
  intros Hcheck Hallowed b credentials -> Hparse.
  unfold POST. rewrite Hcheck, Hallowed. cbn [negb].
  unfold Validate.validate. cbn [mbind outcome_bind]. rewrite Hparse.
  cbn [mbind outcome_bind Validate.success Validate.data negb].
  done.
Qed.

End Login.

(** X17. A client that has used up its five login attempts in the current
    window is answered 429 with the login message and the three
    [X-RateLimit] headers (limit 5, remaining 0, the reset time), whatever
    the body, the database and the password check are: none of them is
    consulted. The refused attempt is counted too. *)
Theorem throttled_login_is_refused {Body : Type} JWT_SECRET sign
    (loginSchema_parse : Body → Outcome LoginRoute.Credentials)
    findOne compare store request body now issued key e :
  getClientIdentifier request = Return key →
  store !! key = Some e →
  ¬ (resetAt e < now) →
  5 ≤ count e →
  LoginRoute.POST JWT_SECRET sign loginSchema_parse findOne compare
      store request body now issued =
    ({| status := 429;
        json := LoginRoute.failure
                  (Some "Too many login attempts. Please try again in 5 minutes.");
        headers := [("X-RateLimit-Limit", "5");
                    ("X-RateLimit-Remaining", "0");
                    ("X-RateLimit-Reset", String_ (resetAt e))] |},
     <[key := {| count := count e + 1; resetAt := resetAt e |}]> store).
Proof.
  intros Hkey E Hlive Hcount. unfold LoginRoute.POST.
  rewrite (checkRateLimit_live store request RATE_LIMITS.login now key Hkey e E Hlive).
  assert ((count e + 1 <=? maxRequests RATE_LIMITS.login) = false) as ->
    by (apply Z.leb_gt; cbn; lia).
  reflexivity.
Qed.

Lemma throttled_login_is_refused_witness :
  LoginRoute.POST None RefJose.sign Cases.parsed Cases.findAdmin
      Cases.comparePassword Cases.blockedStore Scenario.client
      (Done Cases.goodLogin) 1000 1 =
    ({| status := 429;
        json := LoginRoute.failure
                  (Some "Too many login attempts. Please try again in 5 minutes.");
        headers := [("X-RateLimit-Limit", "5");
                    ("X-RateLimit-Remaining", "0");
                    ("X-RateLimit-Reset", String_ 300000)] |},
     <["1.2.3.4" := {| count := 5 + 1; resetAt := 300000 |}]> Cases.blockedStore).
Proof.
  apply (throttled_login_is_refused None RefJose.sign Cases.parsed Cases.findAdmin
           Cases.comparePassword Cases.blockedStore Scenario.client
           (Done Cases.goodLogin) 1000 1 "1.2.3.4"
           {| count := 5; resetAt := 300000 |}).
  - reflexivity.
  - reflexivity.
  - cbn. lia.
  - cbn. lia.
Defined.

(** X18. An unknown user name and a wrong password get the same answer:
    for the same request, the response and the store are equal whether the
    database has no such admin or has one whose password does not match;
    the status is 401, or 429 when the limiter refuses. *)
Theorem unknown_user_and_wrong_password_look_alike {Body : Type} JWT_SECRET sign
    (loginSchema_parse : Body → Outcome LoginRoute.Credentials)
    findOne1 findOne2 compare store request body now issued b credentials a :
  body = Done b →
  loginSchema_parse b = Done credentials →
  findOne1 (LoginRoute.username credentials) = Done None →
  findOne2 (LoginRoute.username credentials) = Done (Some a) →
  compare (LoginRoute.password credentials) (LoginRoute.admin_password a) = Done false →
  LoginRoute.POST JWT_SECRET sign loginSchema_parse findOne1 compare
      store request body now issued =
  LoginRoute.POST JWT_SECRET sign loginSchema_parse findOne2 compare
      store request body now issued ∧
  (status (LoginRoute.POST JWT_SECRET sign loginSchema_parse findOne1 compare
             store request body now issued).1 = 401 ∨
   status (LoginRoute.POST JWT_SECRET sign loginSchema_parse findOne1 compare
             store request body now issued).1 = 429).
Proof.
  intros Hbody Hparse H1 H2 Hcmp.
  destruct (checkRateLimit_shape store request RATE_LIMITS.login now)
    as (r & store1 & Hcheck & [[Ha _]|[Ha _]]).
  - rewrite (POST_allowed JWT_SECRET sign loginSchema_parse findOne1 compare
               store request body now issued r store1 Hcheck Ha b credentials Hbody Hparse).
    rewrite (POST_allowed JWT_SECRET sign loginSchema_parse findOne2 compare
               store request body now issued r store1 Hcheck Ha b credentials Hbody Hparse).
    rewrite H1, H2. cbn [mbind outcome_bind]. rewrite Hcmp.
    split; [reflexivity|]. by left.
  - unfold LoginRoute.POST. rewrite Hcheck, Ha. split; [reflexivity|]. by right.
Qed.

Lemma unknown_user_and_wrong_password_look_alike_witness :
  LoginRoute.POST None RefJose.sign Cases.parsed Cases.noAdmins
      Cases.comparePassword ∅ Scenario.client (Done Cases.badLogin) 0 0 =
  LoginRoute.POST None RefJose.sign Cases.parsed Cases.findAdmin
      Cases.comparePassword ∅ Scenario.client (Done Cases.badLogin) 0 0 ∧
  (status (LoginRoute.POST None RefJose.sign Cases.parsed Cases.noAdmins
             Cases.comparePassword ∅ Scenario.client (Done Cases.badLogin) 0 0).1 = 401 ∨
   status (LoginRoute.POST None RefJose.sign Cases.parsed Cases.noAdmins
             Cases.comparePassword ∅ Scenario.client (Done Cases.badLogin) 0 0).1 = 429).
Proof.
  apply (unknown_user_and_wrong_password_look_alike None RefJose.sign Cases.parsed
           Cases.noAdmins Cases.findAdmin Cases.comparePassword ∅ Scenario.client
           (Done Cases.badLogin) 0 0 Cases.badLogin Cases.badLogin Cases.adminDoc).
  - reflexivity.
  - reflexivity.
  - reflexivity.
  - reflexivity.
  - reflexivity.
Defined.

(** X19. Every login attempt is counted, whatever comes of it: the store
    the handler leaves is the one [checkRateLimit] leaves for that request
    under the login configuration, be the answer 200, 400, 401, 429 or
    500. *)
Theorem every_login_attempt_is_counted {Body : Type} JWT_SECRET sign
    (loginSchema_parse : Body → Outcome LoginRoute.Credentials)
    findOne compare store request body now issued :
  ∃ r,
    checkRateLimit store request RATE_LIMITS.login now =
      Return (r, (LoginRoute.POST JWT_SECRET sign loginSchema_parse findOne compare
                    store request body now issued).2).
Proof.
  destruct (checkRateLimit_shape store request RATE_LIMITS.login now)
    as (r & store1 & Hcheck & _).
  exists r. unfold LoginRoute.POST. rewrite Hcheck.
  by destruct (negb (allowed r)).
Qed.

(** X20. The login handler answers with exactly one of five responses:
    200 with [success], a token and the user, and no details; 400
    "Invalid input", whose details are the issues of the [ZodError] the
    schema threw, each as the path joined by dots and the message; 401
    "Invalid credentials"; 429 with the login message and the three
    [X-RateLimit] headers; or the fixed 500 "Login failed". Except for the
    issues of the schema in the 400, nothing that a collaborator threw
    reaches the response. *)
Theorem login_answers {Body : Type} JWT_SECRET sign
    (loginSchema_parse : Body → Outcome LoginRoute.Credentials)
    findOne compare store request body now issued :
  let response :=
    (LoginRoute.POST JWT_SECRET sign loginSchema_parse findOne compare
       store request body now issued).1 in
  (∃ t u,
     response =
       {| status := 200;
          json := {| LoginRoute.success := true;
                     LoginRoute.error := None;
                     LoginRoute.details := None;
                     LoginRoute.token := Some t;
                     LoginRoute.user := Some u |};
          headers := [] |}) ∨
  (∃ b issues,
     body = Done b ∧
     loginSchema_parse b = Raise (ZodError issues) ∧
     response =
       {| status := 400;
          json := {| LoginRoute.success := false;
                     LoginRoute.error := Some "Invalid input";
                     LoginRoute.details :=
                       Some (map (λ e, {| LoginRoute.field := join "." (path e);
                                          LoginRoute.field_message := issue_message e |})
                               issues);
                     LoginRoute.token := None;
                     LoginRoute.user := None |};
          headers := [] |}) ∨
  response = LoginRoute.invalidCredentials ∨
  (∃ reset,
     response =
       {| status := 429;
          json := LoginRoute.failure
                    (Some "Too many login attempts. Please try again in 5 minutes.");
          headers := [("X-RateLimit-Limit", "5");
                      ("X-RateLimit-Remaining", "0");
                      ("X-RateLimit-Reset", reset)] |}) ∨
  response = LoginRoute.loginFailed.
Proof.
  cbv zeta.
  destruct (checkRateLimit_shape store request RATE_LIMITS.login now)
    as (r & store1 & Hcheck & [[Ha _]|(Ha & Hr & He)]);
    unfold LoginRoute.POST; rewrite Hcheck, Ha; cbn [negb fst].
  - destruct body as [b|e]; cbn [mbind outcome_bind try_]; [|by auto 6].
    unfold Validate.validate.
    destruct (loginSchema_parse b) as [credentials|[e|m|issues|w]] eqn:Hparse;
      cbn [mbind outcome_bind try_ Validate.success Validate.data
           Validate.errors negb option_map mret outcome_ret];
      [|by auto 6|by auto 6| |by auto 6].
    + destruct (findOne (LoginRoute.username credentials)) as [[a|]|];
        cbn [mbind outcome_bind try_ mret outcome_ret]; [|by auto 6|by auto 6].
      destruct (compare _ _) as [[]|];
        cbn [mbind outcome_bind try_ mret outcome_ret negb]; [|by auto 6|by auto 6].
      left. by eauto.
    + right. left. exists b, issues. by repeat split.
  - rewrite Hr, He. do 3 right. left. eexists. reflexivity.
Qed.

(** X21. From login to the guard: when the limiter allows the request and
    the credentials match an admin, the handler answers 200 with a token,
    and a request that carries this token as [Bearer] token is authorized
    by [requireAuth], with the admin's id, name and address as claim, at
    every clock reading before [issued + 24h]. *)
Theorem login_token_passes_the_guard {Body : Type} JWT_SECRET sign jwtVerify
    (loginSchema_parse : Body → Outcome LoginRoute.Credentials)
    findOne compare store request body now issued later r store1 b credentials a :
  Auth.verifiesSigned sign jwtVerify →
  checkRateLimit store request RATE_LIMITS.login now = Return (r, store1) →
  allowed r = true →
  body = Done b →
  loginSchema_parse b = Done credentials →
  findOne (LoginRoute.username credentials) = Done (Some a) →
  compare (LoginRoute.password credentials) (LoginRoute.admin_password a) = Done true →
  later < issued + 24 * 3600 →
  ∃ t,
    (LoginRoute.POST JWT_SECRET sign loginSchema_parse findOne compare
       store request body now issued).1 =
      {| status := 200;
         json := {| LoginRoute.success := true;
                    LoginRoute.error := None;
                    LoginRoute.details := None;
                    LoginRoute.token := Some t;
                    LoginRoute.user :=
                      Some {| LoginRoute.user_username := LoginRoute.admin_username a;
                              LoginRoute.user_email := LoginRoute.admin_email a |} |};
         headers := [] |} ∧
    Auth.value (Auth.requireAuth JWT_SECRET jwtVerify (Scenario.bearer t) later) =
      {| Auth.authorized := true;
         Auth.user :=
           Some {| Auth.claims :=
                     {| Auth.userId := LoginRoute._id a;
                        Auth.username := LoginRoute.admin_username a;
                        Auth.email := LoginRoute.admin_email a |};
                   Auth.iat := Some issued;
                   Auth.exp := Some (issued + 24 * 3600) |};
         Auth.error := None |}.
Proof.
  intros Hverify Hcheck Ha Hbody Hparse Hfind Hcmp Hlater.
  rewrite (POST_allowed JWT_SECRET sign loginSchema_parse findOne compare
             store request body now issued r store1 Hcheck Ha b credentials Hbody Hparse).
  rewrite Hfind. cbn [mbind outcome_bind]. rewrite Hcmp.
  cbn [mbind outcome_bind negb mret outcome_ret try_ fst].
  eexists. split; [reflexivity|].
  rewrite GuardProps.requireAuth_bearer. cbn.
  rewrite Hverify; [done|]. cbn. intros e [= <-]. lia.
Qed.

Lemma login_token_passes_the_guard_witness :
  ∃ t,
    (LoginRoute.POST None RefJose.sign Cases.parsed Cases.findAdmin
       Cases.comparePassword ∅ Scenario.client (Done Cases.goodLogin) 0 0).1 =
      {| status := 200;
         json := {| LoginRoute.success := true;
                    LoginRoute.error := None;
                    LoginRoute.details := None;
                    LoginRoute.token := Some t;
                    LoginRoute.user :=
                      Some {| LoginRoute.user_username :=
                                LoginRoute.admin_username Cases.adminDoc;
                              LoginRoute.user_email :=
                                LoginRoute.admin_email Cases.adminDoc |} |};
         headers := [] |} ∧
    Auth.value (Auth.requireAuth None RefJose.jwtVerify (Scenario.bearer t) 3600) =
      {| Auth.authorized := true;
         Auth.user :=
           Some {| Auth.claims :=
                     {| Auth.userId := LoginRoute._id Cases.adminDoc;
                        Auth.username := LoginRoute.admin_username Cases.adminDoc;
                        Auth.email := LoginRoute.admin_email Cases.adminDoc |};
                   Auth.iat := Some 0;
                   Auth.exp := Some (0 + 24 * 3600) |};
         Auth.error := None |}.
Proof.
  apply (login_token_passes_the_guard None RefJose.sign RefJose.jwtVerify
           Cases.parsed Cases.findAdmin Cases.comparePassword ∅ Scenario.client
           (Done Cases.goodLogin) 0 0 3600
           {| allowed := true; remaining := 4;
              result_resetAt := Some 300000; error := None |}
           (<["1.2.3.4" := {| count := 1; resetAt := 300000 |}]> ∅)
           Cases.goodLogin Cases.goodLogin Cases.adminDoc).
  - exact AuthProps.ref_verifiesSigned.
  - reflexivity.
  - reflexivity.
  - reflexivity.
  - reflexivity.
  - reflexivity.
  - reflexivity.
  - lia.
Defined.

(** X22. A request that [requireAuth] does not authorize is answered 401
    with the fixed message before anything else happens: the rate-limit
    store and the database are left as they were, so the request is not
    counted by the limiter. *)
Theorem unauthorized_delete_changes_nothing {DB : Type} JWT_SECRET jwtVerify
    clientPromise (deleteOne : DB → string → Outcome (Z * DB))
    store db request id clock now :
  Auth.authorized (Auth.value (Auth.requireAuth JWT_SECRET jwtVerify request clock)) = false →
  EducationRoute.DELETE JWT_SECRET jwtVerify clientPromise deleteOne
      store db request id clock now =
    ({| status := 401;
        json := {| EducationRoute.success := false;
                   EducationRoute.error :=
                     Some "Unauthorized - Invalid or missing token" |};
        headers := [] |}, store, db).
Proof.
  intros Hauth. unfold EducationRoute.DELETE.
  destruct (requireAuth_shape JWT_SECRET jwtVerify request clock) as [[Ha _]|[_ He]];
    [congruence|].
  by rewrite Hauth, He.
Qed.

Lemma unauthorized_delete_changes_nothing_witness :
  EducationRoute.DELETE None RefJose.jwtVerify (Done ()) Cases.deleteById
      Cases.blockedStore ["a1"; "b2"] Scenario.basicAuth (Some "a1") 0 0 =
    ({| status := 401;
        json := {| EducationRoute.success := false;
                   EducationRoute.error :=
                     Some "Unauthorized - Invalid or missing token" |};
        headers := [] |}, Cases.blockedStore, ["a1"; "b2"]).
Proof.
  apply (unauthorized_delete_changes_nothing None RefJose.jwtVerify (Done ())
           Cases.deleteById
           Cases.blockedStore ["a1"; "b2"] Scenario.basicAuth (Some "a1") 0 0).
  reflexivity.
Defined.

(** X23. The database changes only behind all three gates: when the
    handler leaves a database other than the one it found, the request was
    authorized, the limiter allowed it under the [api] configuration, an
    [id] was given, and the database is the one [deleteOne] returned for
    that id. *)
Theorem deletion_is_guarded {DB : Type} JWT_SECRET jwtVerify
    clientPromise (deleteOne : DB → string → Outcome (Z * DB))
    store db request id clock now :
  (EducationRoute.DELETE JWT_SECRET jwtVerify clientPromise deleteOne
     store db request id clock now).2 ≠ db →
  Auth.authorized (Auth.value (Auth.requireAuth JWT_SECRET jwtVerify request clock)) = true ∧
  (∃ r store1,
     checkRateLimit store request RATE_LIMITS.api now = Return (r, store1) ∧
     allowed r = true) ∧
  ∃ given deletedCount,
    id = Some given ∧ given ≠ "" ∧
    deleteOne db given =
      Done (deletedCount,
            (EducationRoute.DELETE JWT_SECRET jwtVerify clientPromise deleteOne
               store db request id clock now).2).
Proof.
  unfold EducationRoute.DELETE.
  destruct (Auth.authorized _); cbn [negb snd]; [|done].
  destruct (checkRateLimit_shape store request RATE_LIMITS.api now)
    as (r & store1 & Hcheck & _). rewrite Hcheck.
  destruct (allowed r) eqn:Ha; cbn [negb snd]; [|done].
  destruct clientPromise as [[]|]; cbn [snd]; [|done].
  destruct id as [[|c given]|]; cbn [truthy negb snd]; [done| |done].
  cbv [default from_option id].
  destruct (deleteOne db (String c given)) as [[n db1]|e] eqn:Hdel; [|done].
  intros Hne. split; [done|]. split; [by eauto|].
  exists (String c given), n. split; [done|]. split; [done|].
  by destruct (n =? 0).
Qed.

Lemma deletion_is_guarded_witness :
  Auth.authorized
    (Auth.value (Auth.requireAuth None RefJose.jwtVerify Cases.adminRequest 0)) = true ∧
  (∃ r store1,
     checkRateLimit ∅ Cases.adminRequest RATE_LIMITS.api 0 = Return (r, store1) ∧
     allowed r = true) ∧
  ∃ given deletedCount,
    Some "a1" = Some given ∧ given ≠ "" ∧
    Cases.deleteById ["a1"; "b2"] given =
      Done (deletedCount,
            (EducationRoute.DELETE None RefJose.jwtVerify (Done ()) Cases.deleteById
               ∅ ["a1"; "b2"] Cases.adminRequest (Some "a1") 0 0).2).
Proof.
  apply (deletion_is_guarded None RefJose.jwtVerify (Done ()) Cases.deleteById
           ∅ ["a1"; "b2"] Cases.adminRequest (Some "a1") 0 0).
  vm_compute. discriminate.
Defined.

End RouteProps.
